(** * A voice-activity-driven microphone recorder

    Shallow embedding of the [useMicrophone] hook of
    [src/hooks/use-microphone.ts] and the properties of its recording
    sessions.

    Conventions of the embedding.
    - The numbers of a session (timestamps, levels, the six constants of
      its configuration) are rationals ([Q]): the hook only subtracts
      timestamps and compares them, and [Math.round] and [Math.max] are
      exact on finite values.  The options of [startRecording] may also be
      [NaN] or an infinity: the module [Num] embeds the lines that read
      them on every JavaScript number.
    - The React refs of the hook are the fields of the record [Hook]; every
      handler of the hook is a function on [Hook].
    - Everything the hook does to the browser or to its caller (acquiring a
      device, stopping tracks, invoking a callback, resolving a promise) is
      appended to the field [trace], oldest effect first.
    - What the browser answers during a call (a stream or an exception, the
      clock, the RMS of the current window, the data an encoder flushes) is
      an argument of the handler that asks for it. *)

From Stdlib Require Import QArith Qround Lqa Lia ZArith List String Bool Sorted.
Import ListNotations.

Open Scope string_scope.
Open Scope list_scope.
Open Scope Q_scope.

(** ** JavaScript primitives *)

Module Js.

(** [Math.max(a, b)] *)
Definition Math_max (a b : Q) : Q := if Qle_bool a b then b else a.

(** [Math.round(x)]: the nearest integer, halves towards plus infinity. *)
Definition Math_round (x : Q) : Q := inject_Z (Qfloor (x + (1 # 2))).

(** [v ?? d] *)
Definition nullish {A : Type} (v : option A) (d : A) : A :=
  match v with
  | Some a => a
  | None => d
  end.

(** [s || d] on strings: the empty string is falsy. *)
Definition or_else (s d : string) : string :=
  match s with
  | EmptyString => d
  | _ => s
  end.

(** [a >= b] *)
Definition geb (a b : Q) : bool := Qle_bool b a.

End Js.

Import Js.

(** ** Data *)

(** A [Blob]: its bytes and its MIME type. *)
Record Blob := mkBlob {
  blob_bytes : list Byte.byte;
  blob_type : string
}.

(** [blob.size] *)
Definition size (b : Blob) : nat := List.length (blob_bytes b).

(** A character in the range U+0020 to U+007E.  A string is its UTF-8
    bytes: a character outside ASCII is bytes of 128 and above. *)
Definition printable (c : Ascii.ascii) : bool :=
  let n := Ascii.N_of_ascii c in (32 <=? n)%N && (n <=? 126)%N.

(** ASCII lowercase of a character. *)
Definition ascii_lowercase (c : Ascii.ascii) : Ascii.ascii :=
  let n := Ascii.N_of_ascii c in
  if (65 <=? n)%N && (n <=? 90)%N then Ascii.ascii_of_N (n + 32) else c.

Fixpoint all_printable (s : string) : bool :=
  match s with
  | EmptyString => true
  | String c rest => printable c && all_printable rest
  end.

Fixpoint lowercase (s : string) : string :=
  match s with
  | EmptyString => EmptyString
  | String c rest => String (ascii_lowercase c) (lowercase rest)
  end.

(** The [type] of a blob built with the option [{ type }]: the [Blob]
    constructor empties a type that holds a character outside U+0020 to
    U+007E and writes the others in ASCII lowercase. *)
Definition blob_type_of (type : string) : string :=
  if all_printable type then lowercase type else "".

(** [new Blob(parts, { type })]: the parts' bytes, in order. *)
Definition new_Blob (parts : list Blob) (type : string) : Blob :=
  {| blob_bytes := List.concat (map blob_bytes parts);
     blob_type := blob_type_of type |}.

(** [MediaRecorder.state]; the hook never pauses a recorder. *)
Inductive RecordingState := inactive | recording | paused.

Record MediaRecorder := mkRecorder {
  state : RecordingState;
  mimeType : string
}.

Definition is_recording (r : MediaRecorder) : bool :=
  match state r with
  | recording => true
  | _ => false
  end.

(** [recorder.mimeType || "audio/webm"] *)
Definition blob_mime (r : MediaRecorder) : string :=
  or_else (mimeType r) "audio/webm".

(** [StartRecordingOptions]: every field may be absent. *)
Record StartRecordingOptions := mkOptions {
  opt_maxDurationMs : option Q;
  opt_minDurationMs : option Q;
  opt_endSilenceMs : option Q;
  opt_energyThreshold : option Q;
  opt_sampleIntervalMs : option Q;
  opt_timesliceMs : option Q
}.

(** The six constants [startRecording] derives from its options and that the
    handlers of the session close over. *)
Record CaptureConfig := mkConfig {
  maxDurationMs : Q;
  minDurationMs : Q;
  endSilenceMs : Q;
  energyThreshold : Q;
  sampleIntervalMs : Q;
  timesliceMs : Q
}.

(** [options?.field]: absent when [options] itself is. *)
Definition field {A : Type} (options : option StartRecordingOptions)
    (f : StartRecordingOptions -> option A) : option A :=
  match options with
  | Some o => f o
  | None => None
  end.

(** Lines 142-147 of [startRecording]. *)
Definition effective_config (options : option StartRecordingOptions)
    : CaptureConfig :=
  {| maxDurationMs :=
       Math_max 1000 (Math_round (nullish (field options opt_maxDurationMs) 12000));
     minDurationMs :=
       Math_max 0 (Math_round (nullish (field options opt_minDurationMs) 500));
     endSilenceMs :=
       Math_max 100 (Math_round (nullish (field options opt_endSilenceMs) 600));
     energyThreshold :=
       Math_max 0.0001 (nullish (field options opt_energyThreshold) 0.015);
     sampleIntervalMs :=
       Math_max 30 (Math_round (nullish (field options opt_sampleIntervalMs) 100));
     timesliceMs :=
       Math_max 120 (Math_round (nullish (field options opt_timesliceMs) 250)) |}.

(** ** Options that are not finite numbers *)

(** A JavaScript number. *)
Inductive JsNumber :=
| NaN
| Infinity
| NegInfinity
| Finite (q : Q).

(** Lines 142-147 of [startRecording] on every JavaScript number. *)
Module Num.

(** [Math.round(x)]: [NaN] and the infinities are returned as they are. *)
Definition Math_round (x : JsNumber) : JsNumber :=
  match x with
  | Finite q => Finite (Js.Math_round q)
  | NaN => NaN
  | Infinity => Infinity
  | NegInfinity => NegInfinity
  end.

(** [Math.max(a, b)]: [NaN] if either argument is, else the larger. *)
Definition Math_max (a b : JsNumber) : JsNumber :=
  match a, b with
  | NaN, _ => NaN
  | _, NaN => NaN
  | Infinity, _ => Infinity
  | _, Infinity => Infinity
  | NegInfinity, x => x
  | x, NegInfinity => x
  | Finite p, Finite q => Finite (Js.Math_max p q)
  end.

Record Options := mkOptions {
  opt_maxDurationMs : option JsNumber;
  opt_minDurationMs : option JsNumber;
  opt_endSilenceMs : option JsNumber;
  opt_energyThreshold : option JsNumber;
  opt_sampleIntervalMs : option JsNumber;
  opt_timesliceMs : option JsNumber
}.

Record Config := mkConfig {
  maxDurationMs : JsNumber;
  minDurationMs : JsNumber;
  endSilenceMs : JsNumber;
  energyThreshold : JsNumber;
  sampleIntervalMs : JsNumber;
  timesliceMs : JsNumber
}.

(** [options?.field] *)
Definition field {A : Type} (options : option Options)
    (f : Options -> option A) : option A :=
  match options with
  | Some o => f o
  | None => None
  end.

Definition effective_config (options : option Options) : Config :=
  {| maxDurationMs :=
       Math_max (Finite 1000)
         (Math_round (nullish (field options opt_maxDurationMs) (Finite 12000)));
     minDurationMs :=
       Math_max (Finite 0)
         (Math_round (nullish (field options opt_minDurationMs) (Finite 500)));
     endSilenceMs :=
       Math_max (Finite 100)
         (Math_round (nullish (field options opt_endSilenceMs) (Finite 600)));
     energyThreshold :=
       Math_max (Finite 0.0001)
         (nullish (field options opt_energyThreshold) (Finite 0.015));
     sampleIntervalMs :=
       Math_max (Finite 30)
         (Math_round (nullish (field options opt_sampleIntervalMs) (Finite 100)));
     timesliceMs :=
       Math_max (Finite 120)
         (Math_round (nullish (field options opt_timesliceMs) (Finite 250))) |}.

End Num.

(** Finite options and a session's configuration among all numbers. *)
Definition finite_options (o : StartRecordingOptions) : Num.Options :=
  {| Num.opt_maxDurationMs := option_map Finite (opt_maxDurationMs o);
     Num.opt_minDurationMs := option_map Finite (opt_minDurationMs o);
     Num.opt_endSilenceMs := option_map Finite (opt_endSilenceMs o);
     Num.opt_energyThreshold := option_map Finite (opt_energyThreshold o);
     Num.opt_sampleIntervalMs := option_map Finite (opt_sampleIntervalMs o);
     Num.opt_timesliceMs := option_map Finite (opt_timesliceMs o) |}.

Definition finite_config (c : CaptureConfig) : Num.Config :=
  {| Num.maxDurationMs := Finite (maxDurationMs c);
     Num.minDurationMs := Finite (minDurationMs c);
     Num.endSilenceMs := Finite (endSilenceMs c);
     Num.energyThreshold := Finite (energyThreshold c);
     Num.sampleIntervalMs := Finite (sampleIntervalMs c);
     Num.timesliceMs := Finite (timesliceMs c) |}.

(** What a [catch] clause may receive. *)
Inductive Thrown :=
| DOMException (message : string)
| Error (message : string)
| NotAnError.

Definition getErrorMessage (error : Thrown) : string :=
  match error with
  | DOMException message | Error message =>
      or_else message "Unable to access your microphone."
  | NotAnError => "Unable to access your microphone."
  end.

(** ** The hook's state *)

(** Browser objects other than the recorder are known by a handle. *)
Definition handle := nat.

(** What the hook does to the browser and to its caller. *)
Inductive Effect :=
| GetUserMedia (stream : handle)
| TrackStop (stream : handle)
| NewAudioContext (context : handle)
| CreateAnalyser (context analyser : handle)
| CloseAudioContext (context : handle)
| NewMediaRecorder (stream : handle)
| RecorderStart (timeslice : Q)
| RecorderStop
| SetInterval (timer : handle) (delay : Q)
| ClearInterval (timer : handle)
| OnError (message : string)
| OnRecordingChunk (audioChunk : Blob)
| OnRecordingComplete (audioBlob : option Blob)
| Resolve (promise : handle) (audioBlob : option Blob).

(** The [useState] cells and the refs of [useMicrophone], and the effects
    performed so far.  [OnError], [OnRecordingChunk] and
    [OnRecordingComplete] record the optional calls
    [onErrorRef.current?.(..)] and the like. *)
Record Hook := mkHook {
  isRecording : bool;
  supportsRecording : bool;
  mediaStreamRef : option handle;
  recorderRef : option MediaRecorder;
  analyserRef : option handle;
  audioContextRef : option handle;
  monitorTimerRef : option handle;
  chunksRef : list Blob;
  resolveStopRef : option handle;
  speechDetectedRef : bool;
  speechStartedAtRef : Q;
  recordingStartedAtRef : Q;
  lastVoiceAtRef : Q;
  trace : list Effect
}.

(** The hook once its mount effect has probed the browser. *)
Definition mounted (supported : bool) : Hook :=
  {| isRecording := false;
     supportsRecording := supported;
     mediaStreamRef := None;
     recorderRef := None;
     analyserRef := None;
     audioContextRef := None;
     monitorTimerRef := None;
     chunksRef := [];
     resolveStopRef := None;
     speechDetectedRef := false;
     speechStartedAtRef := 0;
     recordingStartedAtRef := 0;
     lastVoiceAtRef := 0;
     trace := [] |}.

Module Update.

Definition emit (e : Effect) (s : Hook) : Hook :=
  mkHook (isRecording s) (supportsRecording s) (mediaStreamRef s)
    (recorderRef s) (analyserRef s) (audioContextRef s) (monitorTimerRef s)
    (chunksRef s) (resolveStopRef s) (speechDetectedRef s)
    (speechStartedAtRef s) (recordingStartedAtRef s) (lastVoiceAtRef s)
    (trace s ++ [e]).

Definition setIsRecording (b : bool) (s : Hook) : Hook :=
  mkHook b (supportsRecording s) (mediaStreamRef s)
    (recorderRef s) (analyserRef s) (audioContextRef s) (monitorTimerRef s)
    (chunksRef s) (resolveStopRef s) (speechDetectedRef s)
    (speechStartedAtRef s) (recordingStartedAtRef s) (lastVoiceAtRef s)
    (trace s).

Definition set_recorderRef (r : option MediaRecorder) (s : Hook) : Hook :=
  mkHook (isRecording s) (supportsRecording s) (mediaStreamRef s)
    r (analyserRef s) (audioContextRef s) (monitorTimerRef s)
    (chunksRef s) (resolveStopRef s) (speechDetectedRef s)
    (speechStartedAtRef s) (recordingStartedAtRef s) (lastVoiceAtRef s)
    (trace s).

Definition set_monitorTimerRef (t : option handle) (s : Hook) : Hook :=
  mkHook (isRecording s) (supportsRecording s) (mediaStreamRef s)
    (recorderRef s) (analyserRef s) (audioContextRef s) t
    (chunksRef s) (resolveStopRef s) (speechDetectedRef s)
    (speechStartedAtRef s) (recordingStartedAtRef s) (lastVoiceAtRef s)
    (trace s).

Definition set_chunksRef (c : list Blob) (s : Hook) : Hook :=
  mkHook (isRecording s) (supportsRecording s) (mediaStreamRef s)
    (recorderRef s) (analyserRef s) (audioContextRef s) (monitorTimerRef s)
    c (resolveStopRef s) (speechDetectedRef s)
    (speechStartedAtRef s) (recordingStartedAtRef s) (lastVoiceAtRef s)
    (trace s).

Definition set_resolveStopRef (k : option handle) (s : Hook) : Hook :=
  mkHook (isRecording s) (supportsRecording s) (mediaStreamRef s)
    (recorderRef s) (analyserRef s) (audioContextRef s) (monitorTimerRef s)
    (chunksRef s) k (speechDetectedRef s)
    (speechStartedAtRef s) (recordingStartedAtRef s) (lastVoiceAtRef s)
    (trace s).

Definition set_speechDetectedRef (b : bool) (s : Hook) : Hook :=
  mkHook (isRecording s) (supportsRecording s) (mediaStreamRef s)
    (recorderRef s) (analyserRef s) (audioContextRef s) (monitorTimerRef s)
    (chunksRef s) (resolveStopRef s) b
    (speechStartedAtRef s) (recordingStartedAtRef s) (lastVoiceAtRef s)
    (trace s).

Definition set_speechStartedAtRef (t : Q) (s : Hook) : Hook :=
  mkHook (isRecording s) (supportsRecording s) (mediaStreamRef s)
    (recorderRef s) (analyserRef s) (audioContextRef s) (monitorTimerRef s)
    (chunksRef s) (resolveStopRef s) (speechDetectedRef s)
    t (recordingStartedAtRef s) (lastVoiceAtRef s)
    (trace s).

Definition set_lastVoiceAtRef (t : Q) (s : Hook) : Hook :=
  mkHook (isRecording s) (supportsRecording s) (mediaStreamRef s)
    (recorderRef s) (analyserRef s) (audioContextRef s) (monitorTimerRef s)
    (chunksRef s) (resolveStopRef s) (speechDetectedRef s)
    (speechStartedAtRef s) (recordingStartedAtRef s) t
    (trace s).

End Update.
Import Update.

(** ** Teardown *)

Definition clearMonitorTimer (s : Hook) : Hook :=
  match monitorTimerRef s with
  | Some timer => set_monitorTimerRef None (emit (ClearInterval timer) s)
  | None => s
  end.

(** [cleanup]: stops the timer and the tracks of the stream the ref holds,
    empties the refs, and closes the audio context the ref held.  A failing
    [close()] is swallowed by the handler, so it leaves no mark here. *)
Definition cleanup (s : Hook) : Hook :=
  let s1 := clearMonitorTimer s in
  let s2 :=
    match mediaStreamRef s1 with
    | Some stream => emit (TrackStop stream) s1
    | None => s1
    end in
  let audioContext := audioContextRef s2 in
  let s3 :=
    {| isRecording := isRecording s2;
       supportsRecording := supportsRecording s2;
       mediaStreamRef := None;
       recorderRef := None;
       analyserRef := None;
       audioContextRef := None;
       monitorTimerRef := monitorTimerRef s2;
       chunksRef := [];
       resolveStopRef := resolveStopRef s2;
       speechDetectedRef := false;
       speechStartedAtRef := 0;
       recordingStartedAtRef := 0;
       lastVoiceAtRef := 0;
       trace := trace s2 |} in
  match audioContext with
  | Some context => emit (CloseAudioContext context) s3
  | None => s3
  end.

(** [computeRmsLevel]: [rms] is the root mean square of the window the
    analyser hands out, [0] without an analyser. *)
Definition computeRmsLevel (rms : Q) (s : Hook) : Q :=
  match analyserRef s with
  | None => 0
  | Some _ => rms
  end.

(** ** The handlers of a session *)

(** [recorder.ondataavailable] *)
Definition ondataavailable (recorder : MediaRecorder) (data : Blob)
    (s : Hook) : Hook :=
  if (0 <? size data)%nat then
    let s1 := set_chunksRef (chunksRef s ++ [data]) s in
    if speechDetectedRef s1 then
      emit (OnRecordingChunk (new_Blob (chunksRef s1) (blob_mime recorder))) s1
    else s1
  else s.

(** [recorder.onstop] *)
Definition onstop (recorder : MediaRecorder) (s : Hook) : Hook :=
  let s1 := clearMonitorTimer (setIsRecording false s) in
  let hasSpeech := speechDetectedRef s1 in
  let resolver := resolveStopRef s1 in
  let s2 := set_resolveStopRef None s1 in
  let audioBlob :=
    if hasSpeech && (0 <? List.length (chunksRef s2))%nat
    then Some (new_Blob (chunksRef s2) (blob_mime recorder))
    else None in
  let s3 := cleanup s2 in
  let s4 :=
    match resolver with
    | Some promise => emit (Resolve promise audioBlob) s3
    | None => s3
    end in
  emit (OnRecordingComplete audioBlob) s4.

(** [recorder.stop()] on the recorder the ref holds: the recorder becomes
    inactive, then the browser hands the encoded data it still holds
    ([flush]) to [ondataavailable] and fires [onstop].  The two events are
    taken to follow the call with no other task of the page in between. *)
Definition recorder_stop (flush : Blob) (recorder : MediaRecorder)
    (s : Hook) : Hook :=
  let stopped := {| state := inactive; mimeType := mimeType recorder |} in
  let s1 := emit RecorderStop (set_recorderRef (Some stopped) s) in
  onstop stopped (ondataavailable stopped flush s1).

(** The callback of [window.setInterval] in [startRecording]; [now] is what
    [performance.now()] answers. *)
Definition monitor (cfg : CaptureConfig) (flush : Blob) (now rms : Q)
    (s : Hook) : Hook :=
  match recorderRef s with
  | None => s
  | Some activeRecorder =>
    if negb (is_recording activeRecorder) then s
    else
      let level := computeRmsLevel rms s in
      let recordingDurationMs := now - recordingStartedAtRef s in
      if geb recordingDurationMs (maxDurationMs cfg) then
        recorder_stop flush activeRecorder s
      else if negb (speechDetectedRef s) then
        if geb level (energyThreshold cfg) then
          set_lastVoiceAtRef now
            (set_speechStartedAtRef now (set_speechDetectedRef true s))
        else s
      else
        let s1 :=
          if geb level (energyThreshold cfg) then set_lastVoiceAtRef now s
          else s in
        let speechDurationMs := now - speechStartedAtRef s1 in
        let silenceDurationMs := now - lastVoiceAtRef s1 in
        if geb speechDurationMs (maxDurationMs cfg) then
          recorder_stop flush activeRecorder s1
        else if geb speechDurationMs (minDurationMs cfg)
                && geb silenceDurationMs (endSilenceMs cfg) then
          recorder_stop flush activeRecorder s1
        else s1
  end.

(** ** Starting and stopping *)

(** What the browser answers to the calls of one [startRecording]: a value,
    or the exception the call throws. *)
Record Platform := mkPlatform {
  getUserMedia : Thrown + handle;
  newAudioContext : Thrown + handle;
  (* createMediaStreamSource, createAnalyser and connect *)
  createAnalyser : Thrown + handle;
  (* new MediaRecorder(stream): the recorder's mimeType *)
  newMediaRecorder : Thrown + string;
  (* recorder.start(timeslice) *)
  recorderStart : option Thrown;
  performance_now : Q;
  setInterval : handle
}.

(** The body of a [try]: state passing with exceptions. *)
Module Try.

Definition M (A : Type) : Type := Hook -> (Thrown + A) * Hook.

Definition ret {A : Type} (a : A) : M A := fun s => (inr a, s).

Definition throw {A : Type} (e : Thrown) : M A := fun s => (inl e, s).

Definition bind {A B : Type} (m : M A) (k : A -> M B) : M B :=
  fun s =>
    match m s with
    | (inl e, s') => (inl e, s')
    | (inr a, s') => k a s'
    end.

(** A step that cannot throw. *)
Definition step (f : Hook -> Hook) : M unit := fun s => (inr tt, f s).

(** A browser call: it throws, or it answers and the effect is traced. *)
Definition call {A : Type} (answer : Thrown + A) (e : A -> Effect) : M A :=
  fun s =>
    match answer with
    | inl err => (inl err, s)
    | inr a => (inr a, emit (e a) s)
    end.

End Try.

Declare Scope try_scope.
Delimit Scope try_scope with try.
Notation "x <- m ;; k" := (Try.bind m (fun x => k))
  (at level 61, m at next level, right associativity) : try_scope.
Notation "m ;; k" := (Try.bind m (fun _ => k))
  (at level 61, right associativity) : try_scope.

(** Lines 150-253: the [try] block of [startRecording]. *)
Definition try_start (cfg : CaptureConfig) (p : Platform) : Try.M bool :=
  (stream <- Try.call (getUserMedia p) GetUserMedia ;;
   audioContext <- Try.call (newAudioContext p) NewAudioContext ;;
   analyser <- Try.call (createAnalyser p) (CreateAnalyser audioContext) ;;
   mime <- Try.call (newMediaRecorder p) (fun _ => NewMediaRecorder stream) ;;
   Try.step (fun s =>
     {| isRecording := isRecording s;
        supportsRecording := supportsRecording s;
        mediaStreamRef := Some stream;
        recorderRef := Some {| state := inactive; mimeType := mime |};
        analyserRef := Some analyser;
        audioContextRef := Some audioContext;
        monitorTimerRef := monitorTimerRef s;
        chunksRef := [];
        resolveStopRef := resolveStopRef s;
        speechDetectedRef := false;
        speechStartedAtRef := 0;
        recordingStartedAtRef := performance_now p;
        lastVoiceAtRef := 0;
        trace := trace s |}) ;;
   match recorderStart p with
   | Some err => Try.throw err
   | None =>
       Try.step (fun s =>
         emit (RecorderStart (timesliceMs cfg))
           (set_recorderRef (Some {| state := recording; mimeType := mime |}) s))
   end ;;
   Try.step (setIsRecording true) ;;
   Try.step (fun s =>
     emit (SetInterval (setInterval p) (sampleIntervalMs cfg))
       (set_monitorTimerRef (Some (setInterval p)) s)) ;;
   Try.ret true)%try.

(** Is the recorder the ref holds recording? *)
Definition active (s : Hook) : bool :=
  match recorderRef s with
  | Some r => is_recording r
  | None => false
  end.

(** [startRecording(options)]: the value its promise resolves to, and the
    hook afterwards.  The call is taken to run to its end with no other
    task of the page in between. *)
Definition startRecording (options : option StartRecordingOptions)
    (p : Platform) (s : Hook) : bool * Hook :=
  if negb (supportsRecording s) then
    (false, emit (OnError "Your browser does not support microphone recording.") s)
  else if active s then (true, s)
  else
    let cfg := effective_config options in
    match try_start cfg p s with
    | (inr result, s') => (result, s')
    | (inl error, s') =>
        (false, emit (OnError (getErrorMessage error))
                  (setIsRecording false (cleanup s')))
    end.

(** [stopRecording()]: [promise] names the promise it returns; [Resolve
    promise v] in the trace is the moment it resolves to [v]. *)
Definition stopRecording (promise : handle) (flush : Blob) (s : Hook) : Hook :=
  match recorderRef s with
  | Some recorder =>
      if is_recording recorder then
        recorder_stop flush recorder (set_resolveStopRef (Some promise) s)
      else emit (Resolve promise None) (setIsRecording false (cleanup s))
  | None => emit (Resolve promise None) (setIsRecording false (cleanup s))
  end.

(** The cleanup of the unmount effect (lines 279-288). *)
Definition unmount (flush : Blob) (s : Hook) : Hook :=
  match recorderRef s with
  | Some recorder =>
      if is_recording recorder then recorder_stop flush recorder s
      else cleanup s
  | None => cleanup s
  end.

(** ** Sessions *)

(** What happens to a session between its start and its end: the interval
    timer fires, or the recorder hands over a chunk. *)
Inductive Event :=
| Tick (now rms : Q)
| DataAvailable (data : Blob).

(** The browser runs the interval callback while the timer is registered,
    and a recorder emits data while it records. *)
Definition handle_event (cfg : CaptureConfig) (flush : Blob) (s : Hook)
    (e : Event) : Hook :=
  match e with
  | Tick now rms =>
      match monitorTimerRef s with
      | Some _ => monitor cfg flush now rms s
      | None => s
      end
  | DataAvailable data =>
      match recorderRef s with
      | Some recorder =>
          if is_recording recorder then ondataavailable recorder data s else s
      | None => s
      end
  end.

Definition run (cfg : CaptureConfig) (flush : Blob) (s : Hook)
    (events : list Event) : Hook :=
  fold_left (handle_event cfg flush) events s.

(** ** Reading a trace *)

Definition completions (t : list Effect) : list (option Blob) :=
  flat_map (fun e => match e with OnRecordingComplete b => [b] | _ => [] end) t.

Definition resolutions (t : list Effect) : list (handle * option Blob) :=
  flat_map (fun e => match e with Resolve k b => [(k, b)] | _ => [] end) t.

Definition snapshots (t : list Effect) : list Blob :=
  flat_map (fun e => match e with OnRecordingChunk b => [b] | _ => [] end) t.

Definition errors (t : list Effect) : list string :=
  flat_map (fun e => match e with OnError m => [m] | _ => [] end) t.

(** The resources a trace acquires or builds. *)
Definition acquisitions (t : list Effect) : list Effect :=
  filter (fun e =>
    match e with
    | GetUserMedia _ | NewAudioContext _ | CreateAnalyser _ _
    | NewMediaRecorder _ | SetInterval _ _ => true
    | _ => false
    end) t.

Definition remove_handle (h : handle) (l : list handle) : list handle :=
  filter (fun x => negb (Nat.eqb x h)) l.

(** The streams a trace leaves with running tracks, the audio contexts it
    leaves open, and the interval timers it leaves registered. *)
Fixpoint live_streams_from (live : list handle) (t : list Effect) : list handle :=
  match t with
  | [] => live
  | GetUserMedia h :: t' => live_streams_from (live ++ [h]) t'
  | TrackStop h :: t' => live_streams_from (remove_handle h live) t'
  | _ :: t' => live_streams_from live t'
  end.

Fixpoint open_contexts_from (live : list handle) (t : list Effect) : list handle :=
  match t with
  | [] => live
  | NewAudioContext h :: t' => open_contexts_from (live ++ [h]) t'
  | CloseAudioContext h :: t' => open_contexts_from (remove_handle h live) t'
  | _ :: t' => open_contexts_from live t'
  end.

Fixpoint live_timers_from (live : list handle) (t : list Effect) : list handle :=
  match t with
  | [] => live
  | SetInterval h _ :: t' => live_timers_from (live ++ [h]) t'
  | ClearInterval h :: t' => live_timers_from (remove_handle h live) t'
  | _ :: t' => live_timers_from live t'
  end.

Definition live_streams := live_streams_from [].
Definition open_contexts := open_contexts_from [].
Definition live_timers := live_timers_from [].

(** ** What a stop leaves behind *)

(** The hook with every ref empty. *)
Definition idle (supported : bool) (t : list Effect) : Hook :=
  {| isRecording := false;
     supportsRecording := supported;
     mediaStreamRef := None;
     recorderRef := None;
     analyserRef := None;
     audioContextRef := None;
     monitorTimerRef := None;
     chunksRef := [];
     resolveStopRef := None;
     speechDetectedRef := false;
     speechStartedAtRef := 0;
     recordingStartedAtRef := 0;
     lastVoiceAtRef := 0;
     trace := t |}.

(** The chunks a stop finds in [chunksRef] once the browser has flushed. *)
Definition collected (flush : Blob) (s : Hook) : list Blob :=
  chunksRef s ++ (if (0 <? size flush)%nat then [flush] else []).

(** The blob a stop hands to the resolver and to [onRecordingComplete]. *)
Definition finalize (flush : Blob) (r : MediaRecorder) (s : Hook) : option Blob :=
  if speechDetectedRef s && (0 <? List.length (collected flush s))%nat
  then Some (new_Blob (collected flush s) (blob_mime r))
  else None.

(** The releases of [cleanup], in the order it performs them. *)
Definition teardown (s : Hook) : list Effect :=
  match monitorTimerRef s with Some t => [ClearInterval t] | None => [] end
  ++ match mediaStreamRef s with Some m => [TrackStop m] | None => [] end
  ++ match audioContextRef s with Some c => [CloseAudioContext c] | None => [] end.

(** The effects of [recorder.stop()] and of the two events that follow. *)
Definition stop_effects (flush : Blob) (r : MediaRecorder) (s : Hook)
    : list Effect :=
  [RecorderStop]
  ++ (if (0 <? size flush)%nat && speechDetectedRef s
      then [OnRecordingChunk (new_Blob (chunksRef s ++ [flush]) (blob_mime r))]
      else [])
  ++ teardown s
  ++ match resolveStopRef s with
     | Some k => [Resolve k (finalize flush r s)]
     | None => []
     end
  ++ [OnRecordingComplete (finalize flush r s)].



(** ** Sessions *)

(** The three cells the interval callback writes. *)
Definition with_vad (detected : bool) (startedAt voiceAt : Q) (s : Hook) : Hook :=
  set_lastVoiceAtRef voiceAt
    (set_speechStartedAtRef startedAt (set_speechDetectedRef detected s)).

(** What the interval callback reads from the hook. *)
Definition vad_view (s : Hook) :=
  (recorderRef s, monitorTimerRef s, analyserRef s, speechDetectedRef s,
   speechStartedAtRef s, recordingStartedAtRef s, lastVoiceAtRef s).

(** What stays as it is from the start of a session to its stop. *)
Definition session_frame (s : Hook) :=
  (isRecording s, supportsRecording s, mediaStreamRef s, recorderRef s,
   analyserRef s, audioContextRef s, monitorTimerRef s, resolveStopRef s,
   recordingStartedAtRef s).

(** The phase after a tick: still recording or stopped, the speech flag and
    the two timestamps of the speech. *)
Definition phase (s : Hook) : bool * bool * Q * Q :=
  (active s, speechDetectedRef s, speechStartedAtRef s, lastVoiceAtRef s).

(** The phases a run goes through, one per tick. *)
Fixpoint transitions (cfg : CaptureConfig) (flush : Blob) (s : Hook)
    (events : list Event) : list (bool * bool * Q * Q) :=
  match events with
  | [] => []
  | Tick now rms :: rest =>
      let s' := handle_event cfg flush s (Tick now rms) in
      phase s' :: transitions cfg flush s' rest
  | DataAvailable data :: rest =>
      transitions cfg flush (handle_event cfg flush s (DataAvailable data)) rest
  end.

(** The (timestamp, energy) samples of a run and the chunks it delivers. *)
Definition samples (events : list Event) : list (Q * Q) :=
  flat_map (fun e => match e with Tick now rms => [(now, rms)] | _ => [] end)
    events.


Definition nonempty (b : Blob) : bool := (0 <? size b)%nat.


Definition is_some {A : Type} (o : option A) : bool :=
  match o with
  | Some _ => true
  | None => false
  end.

(** For each completed session of a trace, was its final blob present? *)
Definition presence (t : list Effect) : list bool :=
  map is_some (completions t).


(** The time of the last sample at or above the threshold, the sample of
    the tick at [now] included. *)
Definition last_voice (cfg : CaptureConfig) (now rms : Q) (s : Hook) : Q :=
  if geb (computeRmsLevel rms s) (energyThreshold cfg) then now
  else lastVoiceAtRef s.




(** The states the hook comes to rest in: it is mounted, then its
    operations and the events of its sessions happen in any order, each
    [recorder.stop()] together with the two events it queues.  The states
    between a stop and its events are those of [between_tasks]. *)
Inductive reachable : Hook -> Prop :=
| reach_mounted (supported : bool) : reachable (mounted supported)
| reach_start (options : option StartRecordingOptions) (p : Platform) (s : Hook) :
    reachable s -> reachable (snd (startRecording options p s))
| reach_stop (promise : handle) (flush : Blob) (s : Hook) :
    reachable s -> reachable (stopRecording promise flush s)
| reach_event (cfg : CaptureConfig) (flush : Blob) (e : Event) (s : Hook) :
    reachable s -> reachable (handle_event cfg flush s e)
| reach_unmount (flush : Blob) (s : Hook) :
    reachable s -> reachable (unmount flush s).

(** A hook holds a recorder only in a browser that supports recording. *)
Definition supported_if_recorder (s : Hook) : Prop :=
  supportsRecording s = true \/ recorderRef s = None.

(** ** The configuration as documented *)

(** [z] is the whole number of milliseconds nearest to [v], a half going
    up. *)
Definition nearest_ms (v : Q) (z : Z) : Prop :=
  inject_Z z - (1 # 2) <= v /\ v < inject_Z z + (1 # 2).

(** [result] is [v], or [floor] when [v] is below it. *)
Definition clamped (floor v : Q) (result : JsNumber) : Prop :=
  (floor <= v /\ result = Finite v) \/ (v < floor /\ result = Finite floor).

(** The five durations are read in whole milliseconds, the energy threshold
    as it is given. *)
Inductive Reading := whole_ms | as_given.

(** What a field of the configuration is, for what the caller gave: the
    default when nothing was given, else the given value, read and clamped
    to the floor.  An infinity is clamped as any value; nothing is said of
    [NaN]. *)
Definition documented_field (reading : Reading) (default floor : Q)
    (given : option JsNumber) (result : JsNumber) : Prop :=
  match given with
  | None => result = Finite default
  | Some (Finite v) =>
      match reading with
      | whole_ms => exists z : Z, nearest_ms v z /\ clamped floor (inject_Z z) result
      | as_given => clamped floor v result
      end
  | Some Infinity => result = Infinity
  | Some NegInfinity => result = Finite floor
  | Some NaN => True
  end.

(** Defaults and floors of the six fields. *)
Definition documented (options : option Num.Options) (c : Num.Config) : Prop :=
  match options with
  | None =>
      c = Num.mkConfig (Finite 12000) (Finite 500) (Finite 600) (Finite 0.015)
            (Finite 100) (Finite 250)
  | Some o =>
      documented_field whole_ms 12000 1000
        (Num.opt_maxDurationMs o) (Num.maxDurationMs c)
      /\ documented_field whole_ms 500 0
           (Num.opt_minDurationMs o) (Num.minDurationMs c)
      /\ documented_field whole_ms 600 100
           (Num.opt_endSilenceMs o) (Num.endSilenceMs c)
      /\ documented_field as_given 0.015 0.0001
           (Num.opt_energyThreshold o) (Num.energyThreshold c)
      /\ documented_field whole_ms 100 30
           (Num.opt_sampleIntervalMs o) (Num.sampleIntervalMs c)
      /\ documented_field whole_ms 250 120
           (Num.opt_timesliceMs o) (Num.timesliceMs c)
  end.

(** The configuration with every given value clamped to its floor as it
    is, none of them rounded. *)
Definition clamped_as_given (options : option Num.Options) (c : Num.Config)
    : Prop :=
  match options with
  | None =>
      c = Num.mkConfig (Finite 12000) (Finite 500) (Finite 600) (Finite 0.015)
            (Finite 100) (Finite 250)
  | Some o =>
      documented_field as_given 12000 1000
        (Num.opt_maxDurationMs o) (Num.maxDurationMs c)
      /\ documented_field as_given 500 0
           (Num.opt_minDurationMs o) (Num.minDurationMs c)
      /\ documented_field as_given 600 100
           (Num.opt_endSilenceMs o) (Num.endSilenceMs c)
      /\ documented_field as_given 0.015 0.0001
           (Num.opt_energyThreshold o) (Num.energyThreshold c)
      /\ documented_field as_given 100 30
           (Num.opt_sampleIntervalMs o) (Num.sampleIntervalMs c)
      /\ documented_field as_given 250 120
           (Num.opt_timesliceMs o) (Num.timesliceMs c)
  end.

(** No field of the options is [NaN]. *)
Definition a_number (given : option JsNumber) : Prop := given <> Some NaN.

Definition numbers (options : option Num.Options) : Prop :=
  match options with
  | None => True
  | Some o =>
      a_number (Num.opt_maxDurationMs o) /\ a_number (Num.opt_minDurationMs o)
      /\ a_number (Num.opt_endSilenceMs o)
      /\ a_number (Num.opt_energyThreshold o)
      /\ a_number (Num.opt_sampleIntervalMs o)
      /\ a_number (Num.opt_timesliceMs o)
  end.

(** Options with a value of every kind, and what they yield. *)
Definition mixed_options : option Num.Options :=
  Some (Num.mkOptions (Some (Finite 1500.5)) (Some NegInfinity) None
          (Some (Finite 0.00001)) (Some Infinity) (Some (Finite 10))).

Definition mixed_config : Num.Config :=
  Num.mkConfig (Finite 1501) (Finite 0) (Finite 600) (Finite 0.0001)
    Infinity (Finite 120).

(** Options that give a maximal duration only. *)
Definition only_maxDurationMs (v : JsNumber) : Num.Options :=
  Num.mkOptions (Some v) None None None None None.

(** ** Concrete sessions *)

(** A browser in which every call of [startRecording] succeeds. *)
Definition browser : Platform :=
  {| getUserMedia := inr 1%nat;
     newAudioContext := inr 2%nat;
     createAnalyser := inr 3%nat;
     newMediaRecorder := inr "audio/webm;codecs=opus";
     recorderStart := None;
     performance_now := 0;
     setInterval := 4%nat |}.

(** A browser whose [MediaRecorder] constructor rejects the stream. *)
Definition browser_without_encoder : Platform :=
  {| getUserMedia := inr 1%nat;
     newAudioContext := inr 2%nat;
     createAnalyser := inr 3%nat;
     newMediaRecorder := inl (DOMException "NotSupportedError");
     recorderStart := None;
     performance_now := 0;
     setInterval := 4%nat |}.

(** A browser whose recorder refuses to start. *)
Definition browser_refusing_start : Platform :=
  {| getUserMedia := inr 1%nat;
     newAudioContext := inr 2%nat;
     createAnalyser := inr 3%nat;
     newMediaRecorder := inr "audio/webm;codecs=opus";
     recorderStart := Some (DOMException "InvalidStateError");
     performance_now := 0;
     setInterval := 4%nat |}.

(** A browser that denies the microphone. *)
Definition browser_denying : Platform :=
  {| getUserMedia := inl (DOMException "Permission denied");
     newAudioContext := inr 2%nat;
     createAnalyser := inr 3%nat;
     newMediaRecorder := inr "audio/webm;codecs=opus";
     recorderStart := None;
     performance_now := 0;
     setInterval := 4%nat |}.

Definition defaults : CaptureConfig := effective_config None.

(** The hook right after [startRecording()] succeeded at time [0]. *)
Definition fresh : Hook := snd (startRecording None browser (mounted true)).

Definition chunk : Blob :=
  {| blob_bytes := [Byte.x1a; Byte.x45; Byte.xdf; Byte.xa3];
     blob_type := "audio/webm;codecs=opus" |}.

Definition empty_blob : Blob :=
  {| blob_bytes := []; blob_type := "audio/webm;codecs=opus" |}.

(** Speech from the tick of 100 ms to the tick of 700 ms. *)
Definition long_speech : list Event :=
  [Tick 100 0.5; Tick 200 0.5; Tick 300 0.5; Tick 400 0.5; Tick 500 0.5;
   Tick 600 0.5; Tick 700 0.5].

(** Silence from the tick of 800 ms to the tick of 1200 ms. *)
Definition silence_to_1200 : list Event :=
  [Tick 800 0; Tick 900 0; Tick 1000 0; Tick 1100 0; Tick 1200 0].

(** Speech at the ticks of 100 ms and 200 ms, silence from then on. *)
Definition short_speech : list Event :=
  [Tick 100 0.5; Tick 200 0.5; Tick 300 0; Tick 400 0; Tick 500 0;
   Tick 600 0; Tick 700 0].

(** ** The rest of the hook *)

(** What the mount effect probes (lines 69-77). *)
Record Environment := mkEnvironment {
  has_window : bool;
  has_navigator : bool;
  has_getUserMedia : bool;
  has_MediaRecorder : bool;
  has_AudioContext : bool
}.

(** The value the mount effect gives to [supportsRecording]. *)
Definition detectSupport (env : Environment) : bool :=
  has_window env && has_navigator env && has_getUserMedia env
  && has_MediaRecorder env && has_AudioContext env.

(** The hook once mounted in [env]. *)
Definition mount (env : Environment) : Hook := mounted (detectSupport env).

(** The listeners of the resume effect (lines 293-312).  Every run of the
    effect builds its own two closures: [handleResume] and the anonymous
    wrapper it registers for [visibilitychange]; [instance] tells the runs
    apart. *)
Inductive EventTarget := Document | Window.

Inductive EventName := visibilitychange | focus.

Inductive Listener :=
| HandleResume (instance : nat)
| VisibilityWrapper (instance : nat).

Definition Registration : Type := EventTarget * EventName * Listener.

Definition same_registration (a b : Registration) : bool :=
  match a, b with
  | (ta, na, la), (tb, nb, lb) =>
      match ta, tb with
      | Document, Document | Window, Window => true
      | _, _ => false
      end
      && match na, nb with
         | visibilitychange, visibilitychange | focus, focus => true
         | _, _ => false
         end
      && match la, lb with
         | HandleResume i, HandleResume j => Nat.eqb i j
         | VisibilityWrapper i, VisibilityWrapper j => Nat.eqb i j
         | _, _ => false
         end
  end.

(** [target.addEventListener(name, listener)]: a listener that is already
    registered is not registered twice. *)
Definition addEventListener (r : Registration) (table : list Registration)
    : list Registration :=
  if existsb (same_registration r) table then table else table ++ [r].

(** [target.removeEventListener(name, listener)] *)
Definition removeEventListener (r : Registration) (table : list Registration)
    : list Registration :=
  filter (fun x => negb (same_registration r x)) table.

(** The resume effect of run [i]: its body and the cleanup it returns. *)
Definition resume_effect (i : nat) (table : list Registration)
    : list Registration :=
  addEventListener (Window, focus, HandleResume i)
    (addEventListener (Document, visibilitychange, VisibilityWrapper i) table).

Definition resume_effect_cleanup (i : nat) (table : list Registration)
    : list Registration :=
  removeEventListener (Window, focus, HandleResume i)
    (removeEventListener (Document, visibilitychange, HandleResume i) table).

(** The component mounted and unmounted [n] times, runs [first], [first + 1],
    and so on. *)
Fixpoint mount_cycles (first n : nat) (table : list Registration)
    : list Registration :=
  match n with
  | O => table
  | S k =>
      mount_cycles (S first) k
        (resume_effect_cleanup first (resume_effect first table))
  end.

(** ** Shapes of the hook *)

(** A session is in progress: a recorder records, the refs hold its stream,
    analyser, audio context and timer, and no stop is pending. *)
Definition in_session (s : Hook) : Prop :=
  isRecording s = true /\ supportsRecording s = true /\ active s = true
  /\ mediaStreamRef s <> None /\ analyserRef s <> None
  /\ audioContextRef s <> None /\ monitorTimerRef s <> None
  /\ resolveStopRef s = None.

(** No session: every ref is empty. *)
Definition is_idle (s : Hook) : Prop :=
  s = idle (supportsRecording s) (trace s).


(** The streams, audio contexts and timers a trace leaves alive. *)
Definition ledger (t : list Effect) : list handle * list handle * list handle :=
  (live_streams t, open_contexts t, live_timers t).

(** The ticks of a run carry timestamps that never go back, from [prev]
    on, as [performance.now()] gives them. *)
Fixpoint monotone_from (prev : Q) (events : list Event) : Prop :=
  match events with
  | [] => True
  | Tick now _ :: rest => prev <= now /\ monotone_from now rest
  | DataAvailable _ :: rest => monotone_from prev rest
  end.

(** The timestamp of the last tick of a run, [prev] if it has none. *)
Fixpoint last_tick (prev : Q) (events : list Event) : Q :=
  match events with
  | [] => prev
  | Tick now _ :: rest => last_tick now rest
  | DataAvailable _ :: rest => last_tick prev rest
  end.

(** The options that ask for exactly the configuration [cfg]. *)
Definition options_of (cfg : Num.Config) : Num.Options :=
  {| Num.opt_maxDurationMs := Some (Num.maxDurationMs cfg);
     Num.opt_minDurationMs := Some (Num.minDurationMs cfg);
     Num.opt_endSilenceMs := Some (Num.endSilenceMs cfg);
     Num.opt_energyThreshold := Some (Num.energyThreshold cfg);
     Num.opt_sampleIntervalMs := Some (Num.sampleIntervalMs cfg);
     Num.opt_timesliceMs := Some (Num.timesliceMs cfg) |}.

(** An effective duration is the [NaN] or the plus infinity that was given,
    and a whole number of milliseconds otherwise. *)
Definition whole_or_passed (given : option JsNumber) (result : JsNumber)
    : Prop :=
  match given with
  | Some NaN => result = NaN
  | Some Infinity => result = Infinity
  | _ => exists z : Z, result = Finite (inject_Z z)
  end.

(** The five durations of a configuration, for the options given. *)
Definition durations_whole_or_passed (options : option Num.Options)
    (c : Num.Config) : Prop :=
  let given (f : Num.Options -> option JsNumber) :=
    match options with
    | Some o => f o
    | None => None
    end in
  whole_or_passed (given Num.opt_maxDurationMs) (Num.maxDurationMs c)
  /\ whole_or_passed (given Num.opt_minDurationMs) (Num.minDurationMs c)
  /\ whole_or_passed (given Num.opt_endSilenceMs) (Num.endSilenceMs c)
  /\ whole_or_passed (given Num.opt_sampleIntervalMs) (Num.sampleIntervalMs c)
  /\ whole_or_passed (given Num.opt_timesliceMs) (Num.timesliceMs c).

(** Every call of the browser succeeds. *)
Definition all_succeed (p : Platform) : bool :=
  match getUserMedia p, newAudioContext p, createAnalyser p,
        newMediaRecorder p, recorderStart p with
  | inr _, inr _, inr _, inr _, None => true
  | _, _, _, _, _ => false
  end.

(** A browser without [MediaRecorder]. *)
Definition old_browser : Environment :=
  {| has_window := true; has_navigator := true; has_getUserMedia := true;
     has_MediaRecorder := false; has_AudioContext := true |}.

(** The hook right after a start in which every call succeeded, on a hook
    that was idle with trace [t]. *)
Definition started (options : option StartRecordingOptions) (p : Platform)
    (stream context analyser : handle) (mime : string) (t : list Effect)
    : Hook :=
  {| isRecording := true;
     supportsRecording := true;
     mediaStreamRef := Some stream;
     recorderRef := Some {| state := recording; mimeType := mime |};
     analyserRef := Some analyser;
     audioContextRef := Some context;
     monitorTimerRef := Some (setInterval p);
     chunksRef := [];
     resolveStopRef := None;
     speechDetectedRef := false;
     speechStartedAtRef := 0;
     recordingStartedAtRef := performance_now p;
     lastVoiceAtRef := 0;
     trace :=
       t ++ [GetUserMedia stream; NewAudioContext context;
             CreateAnalyser context analyser; NewMediaRecorder stream;
             RecorderStart (timesliceMs (effective_config options));
             SetInterval (setInterval p)
               (sampleIntervalMs (effective_config options))] |}.

(** What is left of a ledger once [cleanup] has released what the refs of
    [s] hold. *)
Definition release (s : Hook) (l : list handle * list handle * list handle)
    : list handle * list handle * list handle :=
  match l with
  | (streams, contexts, timers) =>
      (match mediaStreamRef s with
       | Some h => remove_handle h streams
       | None => streams
       end,
       match audioContextRef s with
       | Some h => remove_handle h contexts
       | None => contexts
       end,
       match monitorTimerRef s with
       | Some h => remove_handle h timers
       | None => timers
       end)
  end.

(** The instance a listener belongs to. *)
Definition instance_of (l : Listener) : nat :=
  match l with
  | HandleResume i | VisibilityWrapper i => i
  end.

(** Every listener of the table was built by a run before [first]. *)
Definition built_before (first : nat) (table : list Registration) : Prop :=
  Forall (fun r : Registration => (instance_of (snd r) < first)%nat) table.


(** The blobs a trace hands to [onRecordingComplete]. *)
Definition completed_blobs (t : list Effect) : list Blob :=
  flat_map (fun o => match o with Some b => [b] | None => [] end)
    (completions t).

(** ** What a failed start reports *)

(** The first call of [startRecording] that throws, in the order of the
    [try] block. *)
Definition first_failure (p : Platform) : option Thrown :=
  match getUserMedia p with
  | inl e => Some e
  | inr _ =>
    match newAudioContext p with
    | inl e => Some e
    | inr _ =>
      match createAnalyser p with
      | inl e => Some e
      | inr _ =>
        match newMediaRecorder p with
        | inl e => Some e
        | inr _ => recorderStart p
        end
      end
    end
  end.

(** The text for what was thrown: the message of an error that has one. *)
Definition reported_text (e : Thrown) : string :=
  match e with
  | DOMException (String c m) => String c m
  | Error (String c m) => String c m
  | DOMException EmptyString => "Unable to access your microphone."
  | Error EmptyString => "Unable to access your microphone."
  | NotAnError => "Unable to access your microphone."
  end.

(** What a call of [startRecording] has to report, if anything. *)
Definition expected_report (s : Hook) (p : Platform) : option string :=
  if supportsRecording s then
    match option_map state (recorderRef s) with
    | Some recording => None
    | _ => option_map reported_text (first_failure p)
    end
  else Some "Your browser does not support microphone recording.".

(** ** Between a stop and its events *)

(** [recorder.stop()] itself: the recorder is inactive at once, and its
    last [dataavailable] and its [stop] event are queued as one task. *)
Definition stop_called (recorder : MediaRecorder) (s : Hook) : Hook :=
  emit RecorderStop
    (set_recorderRef
       (Some {| state := inactive; mimeType := mimeType recorder |}) s).

(** The task a stop queues: the handlers of [recorder] receive the data the
    encoder still holds, then the [stop] event. *)
Definition stop_task (flush : Blob) (recorder : MediaRecorder) (s : Hook)
    : Hook :=
  let stopped := {| state := inactive; mimeType := mimeType recorder |} in
  onstop stopped (ondataavailable stopped flush s).

(** The callback of [window.setInterval] (lines 209-251) up to its return:
    a stop it calls has not delivered its events yet. *)
Definition monitor_call (cfg : CaptureConfig) (now rms : Q) (s : Hook)
    : Hook :=
  match recorderRef s with
  | None => s
  | Some activeRecorder =>
    if negb (is_recording activeRecorder) then s
    else
      let level := computeRmsLevel rms s in
      let recordingDurationMs := now - recordingStartedAtRef s in
      if geb recordingDurationMs (maxDurationMs cfg) then
        stop_called activeRecorder s
      else if negb (speechDetectedRef s) then
        if geb level (energyThreshold cfg) then
          set_lastVoiceAtRef now
            (set_speechStartedAtRef now (set_speechDetectedRef true s))
        else s
      else
        let s1 :=
          if geb level (energyThreshold cfg) then set_lastVoiceAtRef now s
          else s in
        let speechDurationMs := now - speechStartedAtRef s1 in
        let silenceDurationMs := now - lastVoiceAtRef s1 in
        if geb speechDurationMs (maxDurationMs cfg) then
          stop_called activeRecorder s1
        else if geb speechDurationMs (minDurationMs cfg)
                && geb silenceDurationMs (endSilenceMs cfg) then
          stop_called activeRecorder s1
        else s1
  end.

(** [stopRecording()] (lines 264-277) up to its return. *)
Definition stopRecording_call (promise : handle) (s : Hook) : Hook :=
  match recorderRef s with
  | Some recorder =>
      if is_recording recorder then
        stop_called recorder (set_resolveStopRef (Some promise) s)
      else emit (Resolve promise None) (setIsRecording false (cleanup s))
  | None => emit (Resolve promise None) (setIsRecording false (cleanup s))
  end.

(** The cleanup of the unmount effect (lines 279-288) up to its return. *)
Definition unmount_call (s : Hook) : Hook :=
  match recorderRef s with
  | Some recorder =>
      if is_recording recorder then stop_called recorder s else cleanup s
  | None => cleanup s
  end.

(** The queued task of a stopped recorder runs. *)
Definition settle (flush : Blob) (s : Hook) : Hook :=
  match recorderRef s with
  | Some recorder =>
      if is_recording recorder then s else stop_task flush recorder s
  | None => s
  end.

(** The states of the hook between two tasks of the page.  A call of
    [startRecording] is one step.  An interval callback, [stopRecording]
    and the unmount return as soon as they have called [recorder.stop()];
    when the browser delivers a [dataavailable] event or runs the task of a
    stop is its own choice, and it does so to the handlers of any recorder
    of the hook, the one in the ref or one that a later start or a cleanup
    has dropped from it. *)
Inductive between_tasks : Hook -> Prop :=
| task_mounted (supported : bool) : between_tasks (mounted supported)
| task_start (options : option StartRecordingOptions) (p : Platform)
    (s : Hook) :
    between_tasks s -> between_tasks (snd (startRecording options p s))
| task_stopRecording (promise : handle) (s : Hook) :
    between_tasks s -> between_tasks (stopRecording_call promise s)
| task_tick (cfg : CaptureConfig) (now rms : Q) (s : Hook) :
    between_tasks s -> between_tasks (monitor_call cfg now rms s)
| task_data (recorder : MediaRecorder) (data : Blob) (s : Hook) :
    between_tasks s -> between_tasks (ondataavailable recorder data s)
| task_stop (flush : Blob) (recorder : MediaRecorder) (s : Hook) :
    between_tasks s -> between_tasks (stop_task flush recorder s)
| task_unmount (s : Hook) :
    between_tasks s -> between_tasks (unmount_call s).

(** A stop has been called and its events are still queued. *)
Definition stopping (s : Hook) : Prop :=
  exists r : MediaRecorder, recorderRef s = Some r /\ state r <> recording.

(** The refs of a session are all set or all empty, and [isRecording] is
    true as long as [recorderRef] holds a recorder. *)
Definition all_or_nothing (s : Hook) : Prop :=
  match recorderRef s with
  | Some _ =>
      isRecording s = true
      /\ mediaStreamRef s <> None /\ analyserRef s <> None
      /\ audioContextRef s <> None /\ monitorTimerRef s <> None
  | None =>
      mediaStreamRef s = None /\ analyserRef s = None
      /\ audioContextRef s = None /\ monitorTimerRef s = None
  end.

(** What [all_or_nothing] reads of a hook. *)
Definition ref_view (s : Hook) :=
  (isRecording s, is_some (recorderRef s), mediaStreamRef s, analyserRef s,
   audioContextRef s, monitorTimerRef s).
(** * Proofs *)

(** ** Arithmetic of the primitives *)

Section JsFacts.




Lemma Math_round_integer (z : Z) : Math_round (inject_Z z) = inject_Z z.
Proof.
  unfold Math_round. f_equal.
  assert (L : (z <= Qfloor (inject_Z z + (1 # 2)))%Z).
  { rewrite <- (Qfloor_Z z) at 1. apply Qfloor_resp_le. lra. }
  assert (U : (Qfloor (inject_Z z + (1 # 2)) < z + 1)%Z).
  { rewrite Zlt_Qlt. pose proof (Qfloor_le (inject_Z z + (1 # 2))) as F.
    rewrite inject_Z_plus. change (inject_Z 1) with 1. lra. }
  lia.
Qed.

End JsFacts.

(** ** Reading traces *)

Section TraceReaders.

Lemma completions_app (t u : list Effect) :
  completions (t ++ u) = completions t ++ completions u.
Proof. apply flat_map_app. Qed.

Lemma resolutions_app (t u : list Effect) :
  resolutions (t ++ u) = resolutions t ++ resolutions u.
Proof. apply flat_map_app. Qed.

Lemma snapshots_app (t u : list Effect) :
  snapshots (t ++ u) = snapshots t ++ snapshots u.
Proof. apply flat_map_app. Qed.

Lemma acquisitions_app (t u : list Effect) :
  acquisitions (t ++ u) = acquisitions t ++ acquisitions u.
Proof. apply filter_app. Qed.

Lemma teardown_releases_only (s : Hook) :
  completions (teardown s) = [] /\ resolutions (teardown s) = []
  /\ snapshots (teardown s) = [] /\ acquisitions (teardown s) = []
  /\ errors (teardown s) = [].
Proof.
  unfold teardown.
  destruct (monitorTimerRef s), (mediaStreamRef s), (audioContextRef s);
    repeat split; reflexivity.
Qed.

End TraceReaders.

Ltac open_hook s :=
  destruct s as [isRec sup stream rec analyser context timer chunks
                 resolver detected startedAt recAt voiceAt tr].

(** Call-by-value evaluation of the handlers on an opened hook. *)
Ltac eval_hook :=
  cbv beta iota zeta delta
    [emit setIsRecording set_recorderRef set_monitorTimerRef set_chunksRef
     set_resolveStopRef set_speechDetectedRef set_speechStartedAtRef
     set_lastVoiceAtRef
     isRecording supportsRecording mediaStreamRef recorderRef analyserRef
     audioContextRef monitorTimerRef chunksRef resolveStopRef
     speechDetectedRef speechStartedAtRef recordingStartedAtRef
     lastVoiceAtRef trace
     clearMonitorTimer cleanup onstop ondataavailable recorder_stop
     computeRmsLevel active is_recording state mimeType blob_mime
     idle collected finalize teardown stop_effects with_vad vad_view phase
     andb negb] in *.

Ltac tidy_trace :=
  rewrite <- ?app_assoc; cbn [app]; rewrite ?app_nil_r.

(** [cleanup] empties the session refs and traces the releases. *)
Lemma cleanup_spec (s : Hook) :
  cleanup s =
  {| isRecording := isRecording s;
     supportsRecording := supportsRecording s;
     mediaStreamRef := None;
     recorderRef := None;
     analyserRef := None;
     audioContextRef := None;
     monitorTimerRef := None;
     chunksRef := [];
     resolveStopRef := resolveStopRef s;
     speechDetectedRef := false;
     speechStartedAtRef := 0;
     recordingStartedAtRef := 0;
     lastVoiceAtRef := 0;
     trace := trace s ++ teardown s |}.
Proof.
  open_hook s. destruct timer, stream, context; eval_hook; tidy_trace;
    reflexivity.
Qed.

(** A stop always ends in the idle hook; its effects are [stop_effects]. *)
Lemma recorder_stop_idle (flush : Blob) (r : MediaRecorder) (s : Hook) :
  recorder_stop flush r s
  = idle (supportsRecording s) (trace s ++ stop_effects flush r s).
Proof.
  unfold recorder_stop, ondataavailable, stop_effects, finalize, collected.
  destruct (0 <? size flush)%nat;
    open_hook s; destruct r as [st mime];
    destruct detected, timer, stream, context, resolver; eval_hook;
    tidy_trace; try reflexivity.
Qed.

(** ** The effective configuration *)

(** On finite options the two embeddings of lines 142-147 agree. *)
Lemma effective_config_finite (options : option StartRecordingOptions) :
  Num.effective_config (option_map finite_options options)
  = finite_config (effective_config options).
Proof.
  destruct options as [[o1 o2 o3 o4 o5 o6]|]; [|reflexivity].
  destruct o1, o2, o3, o4, o5, o6; reflexivity.
Qed.

Lemma nearest_ms_round (v : Q) : nearest_ms v (Qfloor (v + (1 # 2))).
Proof.
  unfold nearest_ms.
  pose proof (Qfloor_le (v + (1 # 2))) as L.
  pose proof (Qlt_floor (v + (1 # 2))) as U.
  rewrite inject_Z_plus in U. change (inject_Z 1) with 1 in U.
  split; lra.
Qed.

Lemma nearest_ms_unique (v : Q) (z z' : Z) :
  nearest_ms v z -> nearest_ms v z' -> z = z'.
Proof.
  intros [L U] [L' U'].
  assert (A : (z < z' + 1)%Z).
  { rewrite Zlt_Qlt, inject_Z_plus. change (inject_Z 1) with 1. lra. }
  assert (B : (z' < z + 1)%Z).
  { rewrite Zlt_Qlt, inject_Z_plus. change (inject_Z 1) with 1. lra. }
  lia.
Qed.

Lemma clamped_max (floor v : Q) : clamped floor v (Finite (Math_max floor v)).
Proof.
  unfold clamped, Math_max. destruct (Qle_bool floor v) eqn:E.
  - left. split; [now apply Qle_bool_iff|reflexivity].
  - right. split; [|reflexivity].
    apply Qnot_le_lt. intro L. apply Qle_bool_iff in L. congruence.
Qed.

Lemma clamped_unique (floor v : Q) (r r' : JsNumber) :
  clamped floor v r -> clamped floor v r' -> r = r'.
Proof.
  intros [[L ->]|[L ->]] [[L' ->]|[L' ->]]; try reflexivity; exfalso; lra.
Qed.

Lemma Math_max_default (floor default : Z) :
  (floor <= default)%Z ->
  Math_max (inject_Z floor) (Math_round (inject_Z default)) = inject_Z default.
Proof.
  intro H. rewrite Math_round_integer. unfold Math_max.
  replace (Qle_bool (inject_Z floor) (inject_Z default)) with true;
    [reflexivity|].
  symmetry. apply Qle_bool_iff. now rewrite <- Zle_Qle.
Qed.

(** A duration as lines 142-144, 146 and 147 compute it. *)
Lemma duration_documented (default floor : Z) (given : option JsNumber) :
  (floor <= default)%Z ->
  documented_field whole_ms (inject_Z default) (inject_Z floor) given
    (Num.Math_max (Finite (inject_Z floor))
       (Num.Math_round (nullish given (Finite (inject_Z default))))).
Proof.
  intro H. destruct given as [[| | |v]|]; cbn.
  - exact I.
  - reflexivity.
  - reflexivity.
  - exists (Qfloor (v + (1 # 2))). split; [apply nearest_ms_round|].
    apply clamped_max.
  - now rewrite Math_max_default.
Qed.

(** The energy threshold as line 145 computes it. *)
Lemma threshold_documented (given : option JsNumber) :
  documented_field as_given 0.015 0.0001 given
    (Num.Math_max (Finite 0.0001) (nullish given (Finite 0.015))).
Proof.
  destruct given as [[| | |v]|]; cbn.
  - exact I.
  - reflexivity.
  - reflexivity.
  - apply clamped_max.
  - reflexivity.
Qed.

Lemma documented_field_unique (reading : Reading) (default floor : Q)
    (given : option JsNumber) (r r' : JsNumber) :
  a_number given ->
  documented_field reading default floor given r ->
  documented_field reading default floor given r' ->
  r = r'.
Proof.
  unfold a_number. destruct given as [[| | |v]|]; cbn; intros N H H'.
  - now elim N.
  - congruence.
  - congruence.
  - destruct reading.
    + destruct H as (z & Hz & C), H' as (z' & Hz' & C').
      rewrite (nearest_ms_unique v z' z Hz' Hz) in C'.
      exact (clamped_unique _ _ _ _ C C').
    + exact (clamped_unique _ _ _ _ H H').
  - congruence.
Qed.

(** C7. For every options input, absent options and absent fields
    included: an absent field takes its default (12000, 500, 600, 0.015,
    100, 250); a given duration is rounded to the nearest whole millisecond,
    a half going up, and then clamped to its floor (1000, 0, 100, 30, 120);
    a given energy threshold is clamped to its floor 0.0001 as it is; plus
    infinity is kept and minus infinity yields the floor.  For options
    without NaN this determines the effective configuration, and on finite
    options it is the configuration of the session. *)
Theorem effective_config_rounds_then_clamps (options : option Num.Options) :
  documented options (Num.effective_config options)
  /\ (forall c : Num.Config,
        numbers options -> documented options c ->
        c = Num.effective_config options)
  /\ (forall finite : option StartRecordingOptions,
        options = option_map finite_options finite ->
        Num.effective_config options = finite_config (effective_config finite)).
Proof.
  split; [|split].
  - destruct options as [o|]; [|reflexivity].
    unfold documented, Num.effective_config, Num.field.
    cbn [Num.maxDurationMs Num.minDurationMs Num.endSilenceMs
         Num.energyThreshold Num.sampleIntervalMs Num.timesliceMs].
    split; [exact (duration_documented 12000 1000 _ ltac:(lia))|].
    split; [exact (duration_documented 500 0 _ ltac:(lia))|].
    split; [exact (duration_documented 600 100 _ ltac:(lia))|].
    split; [apply threshold_documented|].
    split; [exact (duration_documented 100 30 _ ltac:(lia))|].
    exact (duration_documented 250 120 _ ltac:(lia)).
  - intros c Hn Hc. destruct options as [o|]; [|exact Hc].
    destruct c as [c1 c2 c3 c4 c5 c6].
    destruct Hn as (N1 & N2 & N3 & N4 & N5 & N6).
    destruct Hc as (D1 & D2 & D3 & D4 & D5 & D6).
    cbn [Num.maxDurationMs Num.minDurationMs Num.endSilenceMs
         Num.energyThreshold Num.sampleIntervalMs Num.timesliceMs] in *.
    unfold Num.effective_config, Num.field.
    f_equal.
    + exact (documented_field_unique _ _ _ _ _ _ N1 D1
               (duration_documented 12000 1000 _ ltac:(lia))).
    + exact (documented_field_unique _ _ _ _ _ _ N2 D2
               (duration_documented 500 0 _ ltac:(lia))).
    + exact (documented_field_unique _ _ _ _ _ _ N3 D3
               (duration_documented 600 100 _ ltac:(lia))).
    + exact (documented_field_unique _ _ _ _ _ _ N4 D4
               (threshold_documented _)).
    + exact (documented_field_unique _ _ _ _ _ _ N5 D5
               (duration_documented 100 30 _ ltac:(lia))).
    + exact (documented_field_unique _ _ _ _ _ _ N6 D6
               (duration_documented 250 120 _ ltac:(lia))).
  - intros finite ->. apply effective_config_finite.
Qed.

(** ** Steps of a session *)

Lemma active_recorder (s : Hook) :
  active s = true ->
  exists r, recorderRef s = Some r /\ is_recording r = true.
Proof.
  unfold active. destruct (recorderRef s) as [r|]; [|discriminate].
  intro H. now exists r.
Qed.

Lemma recorder_active (s : Hook) (r : MediaRecorder) :
  recorderRef s = Some r -> is_recording r = true -> active s = true.
Proof. unfold active. now intros ->. Qed.

Lemma active_idle (supported : bool) (t : list Effect) :
  active (idle supported t) = false.
Proof. reflexivity. Qed.

(** Nothing happens to a hook without a recording recorder. *)
Lemma handle_event_inactive (cfg : CaptureConfig) (flush : Blob) (s : Hook)
    (e : Event) :
  active s = false -> handle_event cfg flush s e = s.
Proof.
  unfold active, handle_event, monitor. intro H.
  destruct e as [now rms|data]; destruct (recorderRef s) as [r|];
    try rewrite H; cbn [negb]; destruct (monitorTimerRef s); reflexivity.
Qed.

Lemma run_inactive (cfg : CaptureConfig) (flush : Blob) (events : list Event)
    (s : Hook) :
  active s = false -> run cfg flush s events = s.
Proof.
  unfold run. induction events as [|e rest IH]; intro H; [reflexivity|].
  cbn [fold_left]. rewrite handle_event_inactive by assumption. now apply IH.
Qed.

Lemma run_app (cfg : CaptureConfig) (flush : Blob) (s : Hook)
    (pre post : list Event) :
  run cfg flush s (pre ++ post) = run cfg flush (run cfg flush s pre) post.
Proof. apply fold_left_app. Qed.

Lemma run_cons (cfg : CaptureConfig) (flush : Blob) (s : Hook) (e : Event)
    (rest : list Event) :
  run cfg flush s (e :: rest) = run cfg flush (handle_event cfg flush s e) rest.
Proof. reflexivity. Qed.

(** A run that is still recording was recording all along. *)
Lemma run_active_prefix (cfg : CaptureConfig) (flush : Blob) (s : Hook)
    (pre post : list Event) :
  active (run cfg flush s (pre ++ post)) = true ->
  active (run cfg flush s pre) = true.
Proof.
  rewrite run_app. intro H.
  destruct (active (run cfg flush s pre)) eqn:E; [reflexivity|].
  rewrite run_inactive in H by assumption. congruence.
Qed.

Lemma run_active_start (cfg : CaptureConfig) (flush : Blob) (s : Hook)
    (events : list Event) :
  active (run cfg flush s events) = true -> active s = true.
Proof. apply (run_active_prefix cfg flush s [] events). Qed.

(** A tick of a recording session either stops it, with the effects of a
    stop, or only writes the three cells of the speech detector; it never
    takes the speech flag back. *)
Lemma monitor_cases (cfg : CaptureConfig) (flush : Blob) (now rms : Q)
    (s : Hook) (r : MediaRecorder) :
  recorderRef s = Some r -> is_recording r = true ->
  monitor cfg flush now rms s
    = idle (supportsRecording s) (trace s ++ stop_effects flush r s)
  \/ exists startedAt voiceAt,
       monitor cfg flush now rms s
         = with_vad (speechDetectedRef s
                     || geb (computeRmsLevel rms s) (energyThreshold cfg))
             startedAt voiceAt s
       /\ (speechDetectedRef s = true -> startedAt = speechStartedAtRef s).
Proof.
  intros Hr Hrec. unfold monitor. rewrite Hr, Hrec. cbn [negb].
  destruct (geb (now - recordingStartedAtRef s) (maxDurationMs cfg)).
  { left. apply recorder_stop_idle. }
  destruct (speechDetectedRef s) eqn:Hd; cbn [negb orb].
  - destruct (geb (computeRmsLevel rms s) (energyThreshold cfg)) eqn:Hl.
    + match goal with
      | |- context [if ?c then _ else _] => destruct c
      end;
      [|match goal with
        | |- context [if ?c then _ else _] => destruct c
        end].
      1,2: left; rewrite recorder_stop_idle; open_hook s; eval_hook;
        cbn in Hd; subst; reflexivity.
      right. exists (speechStartedAtRef s), now. split; [|reflexivity].
      open_hook s. eval_hook. cbn in Hd; subst. reflexivity.
    + match goal with
      | |- context [if ?c then _ else _] => destruct c
      end;
      [|match goal with
        | |- context [if ?c then _ else _] => destruct c
        end].
      1,2: left; apply recorder_stop_idle.
      right. exists (speechStartedAtRef s), (lastVoiceAtRef s).
      split; [|reflexivity].
      open_hook s. eval_hook. cbn in Hd; subst. reflexivity.
  - destruct (geb (computeRmsLevel rms s) (energyThreshold cfg)) eqn:Hl.
    + right. exists now, now. split; [|discriminate].
      open_hook s. eval_hook. cbn in Hd; subst. reflexivity.
    + right. exists (speechStartedAtRef s), (lastVoiceAtRef s).
      split; [|discriminate].
      open_hook s. eval_hook. cbn in Hd; subst. reflexivity.
Qed.

Lemma active_with_vad (d : bool) (st lv : Q) (s : Hook) :
  active (with_vad d st lv s) = active s.
Proof. reflexivity. Qed.

Lemma monitor_stopped (cfg : CaptureConfig) (flush : Blob) (now rms : Q)
    (s : Hook) (r : MediaRecorder) :
  recorderRef s = Some r -> is_recording r = true ->
  active (monitor cfg flush now rms s) = false ->
  monitor cfg flush now rms s
    = idle (supportsRecording s) (trace s ++ stop_effects flush r s).
Proof.
  intros Hr Hrec Hstop.
  destruct (monitor_cases cfg flush now rms s r Hr Hrec)
    as [E|(st & lv & E & _)]; [exact E|].
  rewrite E, active_with_vad, (recorder_active s r Hr Hrec) in Hstop.
  discriminate.
Qed.

Lemma monitor_continues (cfg : CaptureConfig) (flush : Blob) (now rms : Q)
    (s : Hook) :
  active (monitor cfg flush now rms s) = true ->
  exists startedAt voiceAt,
    monitor cfg flush now rms s
      = with_vad (speechDetectedRef s
                  || geb (computeRmsLevel rms s) (energyThreshold cfg))
          startedAt voiceAt s
    /\ (speechDetectedRef s = true -> startedAt = speechStartedAtRef s).
Proof.
  intro Hgo.
  assert (Ha : active s = true).
  { destruct (active s) eqn:E; [reflexivity|].
    unfold monitor in Hgo. unfold active in E.
    destruct (recorderRef s) as [r|] eqn:Hr.
    - rewrite E in Hgo. cbn [negb] in Hgo. unfold active in Hgo.
      rewrite Hr in Hgo. congruence.
    - unfold active in Hgo. rewrite Hr in Hgo. discriminate. }
  destruct (active_recorder s Ha) as (r & Hr & Hrec).
  destruct (monitor_cases cfg flush now rms s r Hr Hrec) as [E|E];
    [|exact E].
  rewrite E in Hgo. discriminate.
Qed.

Lemma completions_stop_effects (flush : Blob) (r : MediaRecorder) (s : Hook) :
  completions (stop_effects flush r s) = [finalize flush r s].
Proof.
  unfold stop_effects.
  rewrite !completions_app.
  destruct (teardown_releases_only s) as (-> & _).
  destruct ((0 <? size flush)%nat && speechDetectedRef s),
    (resolveStopRef s); reflexivity.
Qed.

Lemma resolutions_stop_effects (flush : Blob) (r : MediaRecorder) (s : Hook) :
  resolutions (stop_effects flush r s)
  = match resolveStopRef s with
    | Some k => [(k, finalize flush r s)]
    | None => []
    end.
Proof.
  unfold stop_effects.
  rewrite !resolutions_app.
  destruct (teardown_releases_only s) as (_ & -> & _).
  destruct ((0 <? size flush)%nat && speechDetectedRef s),
    (resolveStopRef s); reflexivity.
Qed.

Lemma snapshots_stop_effects (flush : Blob) (r : MediaRecorder) (s : Hook) :
  snapshots (stop_effects flush r s)
  = if (0 <? size flush)%nat && speechDetectedRef s
    then [new_Blob (chunksRef s ++ [flush]) (blob_mime r)]
    else [].
Proof.
  unfold stop_effects.
  rewrite !snapshots_app.
  destruct (teardown_releases_only s) as (_ & _ & -> & _).
  destruct ((0 <? size flush)%nat && speechDetectedRef s),
    (resolveStopRef s); reflexivity.
Qed.



(** ** Stop on silence *)



(** ** The ceiling *)








(** An event that leaves the session recording leaves its frame alone. *)
Lemma handle_event_frame (cfg : CaptureConfig) (flush : Blob) (s : Hook)
    (e : Event) :
  active (handle_event cfg flush s e) = true ->
  session_frame (handle_event cfg flush s e) = session_frame s.
Proof.
  destruct e as [now rms|data]; cbn [handle_event].
  - destruct (monitorTimerRef s); [|reflexivity].
    intro Hgo.
    destruct (monitor_continues cfg flush now rms s Hgo) as (st & lv & -> & _).
    reflexivity.
  - intros _. unfold ondataavailable.
    destruct (recorderRef s) as [r|]; [|reflexivity].
    destruct (is_recording r); [|reflexivity].
    destruct (0 <? size data)%nat; [|reflexivity].
    match goal with
    | |- context [if ?c then _ else _] => destruct c
    end; reflexivity.
Qed.

Lemma run_frame (cfg : CaptureConfig) (flush : Blob) (events : list Event) :
  forall s : Hook,
    active (run cfg flush s events) = true ->
    session_frame (run cfg flush s events) = session_frame s.
Proof.
  induction events as [|e rest IH]; intros s Hgo; [reflexivity|].
  rewrite run_cons in *.
  rewrite (IH _ Hgo).
  apply handle_event_frame. exact (run_active_start _ _ _ _ Hgo).
Qed.

Lemma frame_recorder (s s' : Hook) :
  session_frame s' = session_frame s -> recorderRef s' = recorderRef s.
Proof. unfold session_frame. congruence. Qed.



Lemma frame_resolver (s s' : Hook) :
  session_frame s' = session_frame s -> resolveStopRef s' = resolveStopRef s.
Proof. unfold session_frame. congruence. Qed.



(** ** Chunks and speech along a session *)

Lemma handle_tick_continues (cfg : CaptureConfig) (flush : Blob) (now rms : Q)
    (s : Hook) :
  active (handle_event cfg flush s (Tick now rms)) = true ->
  exists detected startedAt voiceAt,
    handle_event cfg flush s (Tick now rms)
    = with_vad detected startedAt voiceAt s
    /\ (speechDetectedRef s = true -> detected = true).
Proof.
  cbn [handle_event]. destruct (monitorTimerRef s).
  - intro Hgo.
    destruct (monitor_continues cfg flush now rms s Hgo) as (st & lv & E & _).
    exists (speechDetectedRef s
            || geb (computeRmsLevel rms s) (energyThreshold cfg)), st, lv.
    split; [exact E|]. now intros ->.
  - intros _.
    exists (speechDetectedRef s), (speechStartedAtRef s), (lastVoiceAtRef s).
    split; [now destruct s|trivial].
Qed.

(** What a chunk does to a recording session. *)
Lemma handle_data (cfg : CaptureConfig) (flush : Blob) (data : Blob)
    (s : Hook) (r : MediaRecorder) :
  recorderRef s = Some r -> is_recording r = true ->
  handle_event cfg flush s (DataAvailable data)
  = if nonempty data then
      if speechDetectedRef s then
        emit (OnRecordingChunk (new_Blob (chunksRef s ++ [data]) (blob_mime r)))
          (set_chunksRef (chunksRef s ++ [data]) s)
      else set_chunksRef (chunksRef s ++ [data]) s
    else s.
Proof.
  intros Hr Hrec. cbn [handle_event]. rewrite Hr, Hrec. reflexivity.
Qed.












Lemma finalize_resolver (flush : Blob) (r : MediaRecorder) (s : Hook)
    (k : option handle) :
  finalize flush r (set_resolveStopRef k s) = finalize flush r s.
Proof. reflexivity. Qed.

(** [stopRecording] on a recording session. *)
Lemma stopRecording_active (promise : handle) (flush : Blob) (s : Hook)
    (r : MediaRecorder) :
  recorderRef s = Some r -> is_recording r = true ->
  stopRecording promise flush s
  = idle (supportsRecording s)
      (trace s ++ stop_effects flush r (set_resolveStopRef (Some promise) s)).
Proof.
  intros Hr Hrec. unfold stopRecording. rewrite Hr, Hrec.
  now rewrite recorder_stop_idle.
Qed.


(** ** Snapshots *)



Lemma active_inactive_step (cfg : CaptureConfig) (flush : Blob) (s : Hook)
    (e : Event) :
  active (handle_event cfg flush s e) = true -> active s = true.
Proof.
  intro Hgo. destruct (active s) eqn:E; [reflexivity|].
  rewrite handle_event_inactive in Hgo by assumption. congruence.
Qed.





(** ** Two runs over the same samples *)

Section Lockstep.

Variables (cfg : CaptureConfig) (f1 f2 : Blob).

(** A relation between the hooks of two runs that ticks preserve and that
    chunks on either side do not disturb. *)
Variable R : Hook -> Hook -> Prop.

Hypothesis R_phase : forall s1 s2, R s1 s2 -> phase s1 = phase s2.

Hypothesis R_tick : forall s1 s2 now rms,
  R s1 s2 ->
  R (handle_event cfg f1 s1 (Tick now rms))
    (handle_event cfg f2 s2 (Tick now rms)).

Hypothesis R_data_left : forall s1 s2 data,
  R s1 s2 -> R (handle_event cfg f1 s1 (DataAvailable data)) s2.

Hypothesis R_data_right : forall s1 s2 data,
  R s1 s2 -> R s1 (handle_event cfg f2 s2 (DataAvailable data)).

Lemma lockstep (ev1 : list Event) :
  forall (ev2 : list Event) (s1 s2 : Hook),
    samples ev1 = samples ev2 -> R s1 s2 ->
    R (run cfg f1 s1 ev1) (run cfg f2 s2 ev2)
    /\ transitions cfg f1 s1 ev1 = transitions cfg f2 s2 ev2.
Proof.
  induction ev1 as [|e1 rest1 IH].
  - induction ev2 as [|e2 rest2 IH2]; intros s1 s2 Hs HR.
    + split; [exact HR|reflexivity].
    + destruct e2 as [now rms|data]; [discriminate|].
      rewrite run_cons. cbn [transitions].
      apply IH2; [exact Hs|]. now apply R_data_right.
  - destruct e1 as [now rms|data].
    + induction ev2 as [|e2 rest2 IH2]; intros s1 s2 Hs HR; [discriminate|].
      destruct e2 as [now' rms'|data'].
      * cbn [samples flat_map app] in Hs. injection Hs as -> -> Hs.
        rewrite !run_cons. cbn [transitions].
        pose proof (R_tick s1 s2 now' rms' HR) as HR'.
        destruct (IH rest2 _ _ Hs HR') as [Hrun Htr].
        split; [exact Hrun|]. now rewrite (R_phase _ _ HR'), Htr.
      * rewrite (run_cons cfg f2). cbn [transitions].
        apply IH2; [exact Hs|]. now apply R_data_right.
    + intros ev2 s1 s2 Hs HR. rewrite run_cons. cbn [transitions].
      apply IH; [exact Hs|]. now apply R_data_left.
Qed.

End Lockstep.

(** The phase is part of what the interval callback reads. *)
Lemma view_phase (s1 s2 : Hook) : vad_view s1 = vad_view s2 -> phase s1 = phase s2.
Proof.
  unfold vad_view, phase, active. intro H. injection H as -> _ _ -> -> _ ->.
  reflexivity.
Qed.

(** A chunk changes nothing of what the interval callback reads. *)
Lemma view_data (cfg : CaptureConfig) (flush : Blob) (s : Hook) (data : Blob) :
  vad_view (handle_event cfg flush s (DataAvailable data)) = vad_view s
  /\ completions (trace (handle_event cfg flush s (DataAvailable data)))
     = completions (trace s).
Proof.
  cbn [handle_event]. unfold ondataavailable.
  destruct (recorderRef s) as [r|] eqn:Hr; [|now split].
  destruct (is_recording r); [|now split].
  destruct (0 <? size data)%nat; [|now split].
  match goal with
  | |- context [if ?c then _ else _] => destruct c
  end; split; try reflexivity.
  cbn [trace emit]. rewrite completions_app. cbn. now rewrite app_nil_r.
Qed.

(** What a tick does to the cells of the speech detector depends on what it
    reads from the hook only, not on the chunks collected or flushed. *)
Lemma view_tick (cfg : CaptureConfig) (f1 f2 : Blob) (s1 s2 : Hook)
    (now rms : Q) :
  vad_view s1 = vad_view s2 ->
  vad_view (handle_event cfg f1 s1 (Tick now rms))
  = vad_view (handle_event cfg f2 s2 (Tick now rms)).
Proof.
  intro Hv. cbn [handle_event]. unfold monitor, computeRmsLevel.
  unfold vad_view in Hv.
  injection Hv as Hrec Htimer Han Hd Hst Hrt Hlv.
  rewrite Hrec, Htimer, Han, Hd, Hrt.
  destruct (monitorTimerRef s2) eqn:Ht2;
    [|unfold vad_view; congruence].
  destruct (recorderRef s2) as [r|] eqn:Hr2;
    [|unfold vad_view; congruence].
  destruct (negb (is_recording r)); [unfold vad_view; congruence|].
  destruct (geb (now - recordingStartedAtRef s2) (maxDurationMs cfg)).
  { now rewrite !recorder_stop_idle. }
  destruct (speechDetectedRef s2) eqn:Hd2; cbn [negb].
  - set (level := match analyserRef s2 with Some _ => rms | None => 0 end).
    destruct (geb level (energyThreshold cfg)).
    + change (speechStartedAtRef (set_lastVoiceAtRef now s1))
        with (speechStartedAtRef s1).
      change (speechStartedAtRef (set_lastVoiceAtRef now s2))
        with (speechStartedAtRef s2).
      change (lastVoiceAtRef (set_lastVoiceAtRef now s1)) with now.
      change (lastVoiceAtRef (set_lastVoiceAtRef now s2)) with now.
      rewrite Hst.
      destruct (geb (now - speechStartedAtRef s2) (maxDurationMs cfg));
        [now rewrite !recorder_stop_idle|].
      destruct (geb (now - speechStartedAtRef s2) (minDurationMs cfg)
                && geb (now - now) (endSilenceMs cfg));
        [now rewrite !recorder_stop_idle|].
      unfold vad_view. cbn. congruence.
    + rewrite Hst, Hlv.
      destruct (geb (now - speechStartedAtRef s2) (maxDurationMs cfg));
        [now rewrite !recorder_stop_idle|].
      destruct (geb (now - speechStartedAtRef s2) (minDurationMs cfg)
                && geb (now - lastVoiceAtRef s2) (endSilenceMs cfg));
        [now rewrite !recorder_stop_idle|].
      unfold vad_view. congruence.
  - destruct (geb match analyserRef s2 with Some _ => rms | None => 0 end
                (energyThreshold cfg)).
    + unfold vad_view. cbn. congruence.
    + unfold vad_view. congruence.
Qed.

Lemma presence_app (t u : list Effect) :
  presence (t ++ u) = presence t ++ presence u.
Proof. unfold presence. now rewrite completions_app, map_app. Qed.

(** With a final flush that is not empty, the blob is there exactly when
    speech was detected. *)
Lemma finalize_flushed (flush : Blob) (r : MediaRecorder) (s : Hook) :
  nonempty flush = true ->
  is_some (finalize flush r s) = speechDetectedRef s.
Proof.
  unfold finalize, collected, nonempty. intros ->.
  rewrite length_app. cbn [List.length].
  replace (0 <? List.length (chunksRef s) + 1)%nat with true
    by (symmetry; apply Nat.ltb_lt; lia).
  now destruct (speechDetectedRef s).
Qed.

(** The trace of a tick: nothing while the session goes on, the effects of
    a stop when it ends. *)
Lemma tick_trace (cfg : CaptureConfig) (flush : Blob) (now rms : Q)
    (s : Hook) :
  let s' := handle_event cfg flush s (Tick now rms) in
  active s = true ->
  if active s' then trace s' = trace s
  else exists r, recorderRef s = Some r
                 /\ trace s' = trace s ++ stop_effects flush r s.
Proof.
  intros s' Ha. destruct (active s') eqn:Hgo.
  - destruct (handle_tick_continues cfg flush now rms s Hgo)
      as (d & st & lv & E & _).
    subst s'. now rewrite E.
  - destruct (active_recorder s Ha) as (r & Hr & Hrec).
    exists r. split; [exact Hr|].
    subst s'. cbn [handle_event] in *.
    destruct (monitorTimerRef s); [|congruence].
    now rewrite (monitor_stopped cfg flush now rms s r Hr Hrec Hgo).
Qed.

Lemma view_active (s1 s2 : Hook) :
  vad_view s1 = vad_view s2 -> active s1 = active s2.
Proof. intro H. apply view_phase in H. unfold phase in H. congruence. Qed.

Lemma view_speech (s1 s2 : Hook) :
  vad_view s1 = vad_view s2 -> speechDetectedRef s1 = speechDetectedRef s2.
Proof. unfold vad_view. congruence. Qed.

(** With non-empty final flushes, two hooks that look the same to the
    interval callback complete the same way. *)
Lemma presence_tick (cfg : CaptureConfig) (f1 f2 : Blob) (s1 s2 : Hook)
    (now rms : Q) :
  nonempty f1 = true -> nonempty f2 = true ->
  vad_view s1 = vad_view s2 ->
  presence (trace s1) = presence (trace s2) ->
  presence (trace (handle_event cfg f1 s1 (Tick now rms)))
  = presence (trace (handle_event cfg f2 s2 (Tick now rms))).
Proof.
  intros Hf1 Hf2 Hv Hp.
  pose proof (view_active _ _ (view_tick cfg f1 f2 s1 s2 now rms Hv)) as Hsame.
  pose proof (view_active _ _ Hv) as Hact.
  destruct (active s2) eqn:Ha2.
  - pose proof (tick_trace cfg f1 now rms s1 Hact) as T1.
    pose proof (tick_trace cfg f2 now rms s2 Ha2) as T2.
    cbv zeta in T1, T2. rewrite Hsame in T1.
    destruct (active (handle_event cfg f2 s2 (Tick now rms))).
    + now rewrite T1, T2.
    + destruct T1 as (r1 & _ & ->). destruct T2 as (r2 & _ & ->).
      rewrite !presence_app, Hp. f_equal.
      unfold presence. rewrite !completions_stop_effects. cbn [map].
      rewrite !finalize_flushed by assumption.
      now rewrite (view_speech _ _ Hv).
  - now rewrite !handle_event_inactive.
Qed.

(** C4, as the hook has it. For a fixed configuration and start, two runs
    over the same ordered (timestamp, energy) samples go through the same
    phases tick after tick (recording or stopped, speech flag, speech-start
    and last-voice timestamps), whatever chunks the recorder hands over in
    either run.  The final blob is present in one run exactly when it is in
    the other provided the final flush is non-empty in both: its presence
    also depends on a chunk having been collected. *)
Theorem vad_deterministic (cfg : CaptureConfig) (f1 f2 : Blob) (s : Hook)
    (ev1 ev2 : list Event) :
  samples ev1 = samples ev2 ->
  transitions cfg f1 s ev1 = transitions cfg f2 s ev2
  /\ (nonempty f1 = true -> nonempty f2 = true ->
      presence (trace (run cfg f1 s ev1))
      = presence (trace (run cfg f2 s ev2))).
Proof.
  intro Hs. split.
  - apply (lockstep cfg f1 f2 (fun s1 s2 => vad_view s1 = vad_view s2));
      try assumption; try reflexivity.
    + apply view_phase.
    + intros. now apply view_tick.
    + intros s1 s2 data H.
      now rewrite (proj1 (view_data cfg f1 s1 data)).
    + intros s1 s2 data H.
      now rewrite (proj1 (view_data cfg f2 s2 data)).
  - intros Hf1 Hf2.
    apply (lockstep cfg f1 f2
             (fun s1 s2 => vad_view s1 = vad_view s2
                           /\ presence (trace s1) = presence (trace s2)));
      try assumption; try (split; reflexivity).
    + intros s1 s2 [H _]. now apply view_phase.
    + intros s1 s2 now rms [Hv Hp]. split.
      * now apply view_tick.
      * now apply presence_tick.
    + intros s1 s2 data [Hv Hp].
      destruct (view_data cfg f1 s1 data) as [Ev Ec].
      unfold presence in *. now rewrite Ev, Ec.
    + intros s1 s2 data [Hv Hp].
      destruct (view_data cfg f2 s2 data) as [Ev Ec].
      unfold presence in *. now rewrite Ev, Ec.
Qed.

(** ** Starting twice *)

Lemma try_start_supports (cfg : CaptureConfig) (p : Platform) (s : Hook) :
  supportsRecording (snd (try_start cfg p s)) = supportsRecording s.
Proof.
  destruct p as [gum ctx an rec st now timer].
  unfold try_start, Try.bind, Try.call, Try.step, Try.ret, Try.throw.
  cbn [getUserMedia newAudioContext createAnalyser newMediaRecorder
       recorderStart performance_now setInterval].
  destruct gum; [reflexivity|]. destruct ctx; [reflexivity|].
  destruct an; [reflexivity|]. destruct rec; [reflexivity|].
  destruct st; reflexivity.
Qed.

Lemma startRecording_supported (options : option StartRecordingOptions)
    (p : Platform) (s : Hook) :
  supported_if_recorder s ->
  supported_if_recorder (snd (startRecording options p s)).
Proof.
  intro H. unfold startRecording.
  destruct (supportsRecording s) eqn:Hs; cbn [negb].
  - destruct (active s); [exact H|].
    pose proof (try_start_supports (effective_config options) p s) as T.
    destruct (try_start (effective_config options) p s) as [[err|ok] s'];
      cbn [snd] in *.
    + right. rewrite cleanup_spec. reflexivity.
    + left. congruence.
  - destruct H as [H|H]; [congruence|]. right. exact H.
Qed.

Lemma stopRecording_supported (promise : handle) (flush : Blob) (s : Hook) :
  supported_if_recorder (stopRecording promise flush s).
Proof.
  right. unfold stopRecording.
  destruct (recorderRef s) as [r|];
    [destruct (is_recording r)|];
    rewrite ?recorder_stop_idle, ?cleanup_spec; reflexivity.
Qed.

Lemma unmount_supported (flush : Blob) (s : Hook) :
  supported_if_recorder (unmount flush s).
Proof.
  right. unfold unmount.
  destruct (recorderRef s) as [r|];
    [destruct (is_recording r)|];
    rewrite ?recorder_stop_idle, ?cleanup_spec; reflexivity.
Qed.

Lemma handle_event_supported (cfg : CaptureConfig) (flush : Blob) (e : Event)
    (s : Hook) :
  supported_if_recorder s ->
  supported_if_recorder (handle_event cfg flush s e).
Proof.
  intro H. destruct (active (handle_event cfg flush s e)) eqn:Hgo.
  - pose proof (handle_event_frame cfg flush s e Hgo) as F.
    unfold session_frame in F. unfold supported_if_recorder in *.
    injection F as _ -> _ -> _ _ _ _ _. exact H.
  - destruct (active s) eqn:Ha.
    + destruct (active_recorder s Ha) as (r & Hr & Hrec).
      destruct e as [now rms|data].
      * pose proof (tick_trace cfg flush now rms s Ha) as T.
        cbv zeta in T. rewrite Hgo in T.
        cbn [handle_event] in *.
        destruct (monitorTimerRef s); [|congruence].
        rewrite (monitor_stopped cfg flush now rms s r Hr Hrec Hgo).
        now right.
      * pose proof (view_active _ _ (proj1 (view_data cfg flush s data))).
        congruence.
    + now rewrite handle_event_inactive.
Qed.

Lemma reachable_supported (s : Hook) : reachable s -> supported_if_recorder s.
Proof.
  induction 1.
  - now right.
  - now apply startRecording_supported.
  - apply stopRecording_supported.
  - now apply handle_event_supported.
  - apply unmount_supported.
Qed.

(** C6. In every state the hook can reach in which a recorder exists and is
    recording, [startRecording] answers [true] and changes nothing: the
    hook, its refs and its trace are as before, so no device was asked for
    and nothing was built. *)
Theorem start_is_idempotent (options : option StartRecordingOptions)
    (p : Platform) (s : Hook) :
  reachable s -> active s = true ->
  startRecording options p s = (true, s).
Proof.
  intros Hreach Ha.
  destruct (reachable_supported s Hreach) as [Hs|Hnone].
  - unfold startRecording. now rewrite Hs, Ha.
  - unfold active in Ha. rewrite Hnone in Ha. discriminate.
Qed.

(** ** Stopping when nothing records *)

(** C9. Without a recording recorder, [stopRecording] resolves its promise
    with no blob within the call, as its last effect; before that it
    releases whatever the refs still held (timer, tracks, audio context),
    and it leaves every ref empty; it acquires nothing. *)
Theorem stop_when_idle (promise : handle) (flush : Blob) (s : Hook) :
  active s = false ->
  let s' := stopRecording promise flush s in
  trace s' = trace s ++ teardown s ++ [Resolve promise None]
  /\ resolutions (trace s') = resolutions (trace s) ++ [(promise, None)]
  /\ acquisitions (trace s') = acquisitions (trace s)
  /\ (isRecording s' = false /\ mediaStreamRef s' = None
      /\ recorderRef s' = None /\ analyserRef s' = None
      /\ audioContextRef s' = None /\ monitorTimerRef s' = None
      /\ chunksRef s' = [])
  /\ (forall t, monitorTimerRef s = Some t -> In (ClearInterval t) (teardown s))
  /\ (forall m, mediaStreamRef s = Some m -> In (TrackStop m) (teardown s))
  /\ (forall c, audioContextRef s = Some c ->
                In (CloseAudioContext c) (teardown s)).
Proof.
  intros Ha s'.
  assert (E : s' = emit (Resolve promise None)
                     (setIsRecording false (cleanup s))).
  { subst s'. unfold stopRecording. unfold active in Ha.
    destruct (recorderRef s) as [r|]; [now rewrite Ha|reflexivity]. }
  rewrite E, cleanup_spec. cbn [emit setIsRecording trace isRecording
    mediaStreamRef recorderRef analyserRef audioContextRef monitorTimerRef
    chunksRef].
  destruct (teardown_releases_only s) as (_ & Hres & _ & Hacq & _).
  split; [now rewrite app_assoc|].
  split; [now rewrite !resolutions_app, Hres, app_nil_r|].
  split; [rewrite !acquisitions_app, Hacq; cbn; now rewrite !app_nil_r|].
  split; [repeat split|].
  unfold teardown. repeat split.
  - intros t ->. apply in_or_app. left. now left.
  - intros m ->. apply in_or_app. right. apply in_or_app. left. now left.
  - intros c ->. apply in_or_app. right. apply in_or_app. right. now left.
Qed.

(** ** Failing to start *)

(** When the device itself is refused, nothing was acquired and the refs
    are emptied: the rollback is complete. *)
Lemma acquisition_failure_rolls_back (options : option StartRecordingOptions)
    (p : Platform) (s : Hook) (err : Thrown) :
  supportsRecording s = true -> active s = false ->
  getUserMedia p = inl err ->
  let (result, s') := startRecording options p s in
  result = false
  /\ trace s' = trace s ++ teardown s ++ [OnError (getErrorMessage err)]
  /\ mediaStreamRef s' = None /\ recorderRef s' = None
  /\ analyserRef s' = None /\ audioContextRef s' = None
  /\ monitorTimerRef s' = None /\ chunksRef s' = []
  /\ isRecording s' = false.
Proof.
  intros Hs Ha Hgum. unfold startRecording. rewrite Hs, Ha. cbn [negb].
  unfold try_start, Try.bind, Try.call. rewrite Hgum.
  rewrite cleanup_spec. cbn. rewrite <- app_assoc. repeat split.
Qed.

(** The same holds when the recorder, once built, refuses to start: by then
    the refs hold the stream and the audio context, and [cleanup] releases
    them. *)
Lemma refused_start_rolls_back :
  let (result, s) := startRecording None browser_refusing_start (mounted true) in
  result = false
  /\ errors (trace s) = ["InvalidStateError"]
  /\ live_streams (trace s) = [] /\ open_contexts (trace s) = []
  /\ live_timers (trace s) = [].
Proof. vm_compute. repeat split. Qed.

(** C5 at a failure of the encoder's construction. The microphone stream
    and the audio context exist by then but the refs do not hold them yet,
    so the [cleanup] of the [catch] branch does not release them:
    [startRecording] answers [false], reports the error once and leaves the
    refs empty, and yet the tracks of stream 1 still run and audio context 2
    is still open. *)
Theorem encoder_failure_leaks_stream :
  let (result, s) := startRecording None browser_without_encoder (mounted true) in
  result = false
  /\ errors (trace s) = ["NotSupportedError"]
  /\ mediaStreamRef s = None /\ recorderRef s = None /\ analyserRef s = None
  /\ audioContextRef s = None /\ monitorTimerRef s = None /\ chunksRef s = []
  /\ live_streams (trace s) = [1%nat]
  /\ open_contexts (trace s) = [2%nat].
Proof. vm_compute. repeat split. Qed.

(** ** The theorems at concrete sessions *)

(** The hook right after a successful start is reachable. *)
Lemma fresh_is_reachable : reachable fresh.
Proof. exact (reach_start None browser (mounted true) (reach_mounted true)). Qed.

(** Speech up to 700 ms and silence from then on, with the defaults: the
    session goes on through the tick of 1200 ms and stops at the tick of
    1300 ms, 600 ms after the last voiced sample. *)
Lemma long_speech_stops_after_end_silence :
  active (run defaults chunk fresh (long_speech ++ silence_to_1200)) = true
  /\ active (run defaults chunk fresh
               (long_speech ++ silence_to_1200 ++ [Tick 1300 0])) = false
  /\ presence (trace (run defaults chunk fresh
                        (long_speech ++ silence_to_1200 ++ [Tick 1300 0])))
     = [true].
Proof. repeat split. Qed.






(** Two runs over the samples (100, 0.5), (200, 0) that differ in their
    chunks. *)
Lemma vad_deterministic_witness :
  let ev1 := [DataAvailable chunk; Tick 100 0.5; Tick 200 0] in
  let ev2 := [Tick 100 0.5; DataAvailable empty_blob; Tick 200 0] in
  transitions defaults chunk fresh ev1 = transitions defaults empty_blob fresh ev2
  /\ (nonempty chunk = true -> nonempty empty_blob = true ->
      presence (trace (run defaults chunk fresh ev1))
      = presence (trace (run defaults empty_blob fresh ev2))).
Proof.
  apply (vad_deterministic defaults chunk empty_blob fresh
           [DataAvailable chunk; Tick 100 0.5; Tick 200 0]
           [Tick 100 0.5; DataAvailable empty_blob; Tick 200 0]).
  reflexivity.
Defined.

(** Two runs over the same samples, with an empty final flush: without any
    chunk the blob is absent, with one chunk it is present. *)
Lemma presence_depends_on_chunks :
  let ev := short_speech ++ [Tick 800 0] in
  samples ev = samples (DataAvailable chunk :: ev)
  /\ presence (trace (run defaults empty_blob fresh ev)) = [false]
  /\ presence (trace (run defaults empty_blob fresh (DataAvailable chunk :: ev)))
     = [true].
Proof. repeat split. Qed.

(** A second start while the first session records, in a browser that
    would now deny the microphone: it is not even asked. *)
Lemma start_is_idempotent_witness :
  startRecording None browser_denying fresh = (true, fresh).
Proof.
  apply (start_is_idempotent None browser_denying fresh).
  - exact fresh_is_reachable.
  - reflexivity.
Defined.



(** [stopRecording] on the hook as mounted. *)
Lemma stop_when_idle_witness :
  let s' := stopRecording 7%nat chunk (mounted true) in
  trace s' = trace (mounted true) ++ teardown (mounted true) ++ [Resolve 7%nat None]
  /\ resolutions (trace s') = resolutions (trace (mounted true)) ++ [(7%nat, None)]
  /\ acquisitions (trace s') = acquisitions (trace (mounted true))
  /\ (isRecording s' = false /\ mediaStreamRef s' = None
      /\ recorderRef s' = None /\ analyserRef s' = None
      /\ audioContextRef s' = None /\ monitorTimerRef s' = None
      /\ chunksRef s' = [])
  /\ (forall t, monitorTimerRef (mounted true) = Some t ->
                In (ClearInterval t) (teardown (mounted true)))
  /\ (forall m, mediaStreamRef (mounted true) = Some m ->
                In (TrackStop m) (teardown (mounted true)))
  /\ (forall c, audioContextRef (mounted true) = Some c ->
                In (CloseAudioContext c) (teardown (mounted true))).
Proof.
  apply (stop_when_idle 7%nat chunk (mounted true)).
  reflexivity.
Defined.



(** A duration and a half is rounded, not kept: from [maxDurationMs] 1500.5
    the session gets 1501, where clamping alone gives 1500.5. *)
Lemma half_millisecond_is_rounded :
  let options := Some (only_maxDurationMs (Finite 1500.5)) in
  Num.maxDurationMs (Num.effective_config options) = Finite 1501
  /\ Num.effective_config options
     = finite_config
         (effective_config
            (Some (mkOptions (Some 1500.5) None None None None None)))
  /\ ~ clamped 1000 1500.5 (Num.maxDurationMs (Num.effective_config options))
  /\ ~ clamped_as_given options (Num.effective_config options).
Proof.
  assert (N : ~ clamped 1000 1500.5 (Finite 1501)).
  { intros [[_ H]|[H _]]; [discriminate H|].
    revert H. apply Qle_not_lt. apply Qle_bool_iff. reflexivity. }
  split; [reflexivity|]. split; [reflexivity|]. split; [exact N|].
  intros (H & _). exact (N H).
Qed.

(** [NaN] is neither rounded nor clamped: it is the duration. *)
Lemma nan_duration_is_kept :
  Num.maxDurationMs (Num.effective_config (Some (only_maxDurationMs NaN)))
  = NaN.
Proof. reflexivity. Qed.

(** Options with a half millisecond, both infinities, a threshold and a
    timeslice below their floors, and an absent field. *)
Lemma effective_config_rounds_then_clamps_witness :
  numbers mixed_options
  /\ documented mixed_options mixed_config
  /\ mixed_config = Num.effective_config mixed_options.
Proof.
  assert (N : numbers mixed_options) by (repeat split; discriminate).
  assert (D : documented mixed_options mixed_config).
  { split; [|split; [|split; [|split; [|split]]]]; cbn.
    - exists 1501%Z. split; [split; [apply Qle_bool_iff|]; reflexivity|].
      left. split; [apply Qle_bool_iff|]; reflexivity.
    - reflexivity.
    - reflexivity.
    - right. split; reflexivity.
    - reflexivity.
    - exists 10%Z. split; [split; [apply Qle_bool_iff|]; reflexivity|].
      right. split; reflexivity. }
  split; [exact N|]. split; [exact D|].
  exact (proj1 (proj2 (effective_config_rounds_then_clamps mixed_options))
           mixed_config N D).
Defined.

(** * More of the hook *)

(** ** Starting from the idle hook *)

Lemma errors_app (t u : list Effect) :
  errors (t ++ u) = errors t ++ errors u.
Proof. apply flat_map_app. Qed.

Lemma is_idle_idle (supported : bool) (t : list Effect) :
  is_idle (idle supported t).
Proof. reflexivity. Qed.

(** What [startRecording] does to an idle hook in a supporting browser,
    failure point by failure point. *)
Lemma start_from_idle (options : option StartRecordingOptions) (p : Platform)
    (t : list Effect) :
  startRecording options p (idle true t)
  = match getUserMedia p with
    | inl e => (false, idle true (t ++ [OnError (getErrorMessage e)]))
    | inr stream =>
      match newAudioContext p with
      | inl e =>
          (false, idle true (t ++ [GetUserMedia stream;
                                   OnError (getErrorMessage e)]))
      | inr context =>
        match createAnalyser p with
        | inl e =>
            (false, idle true (t ++ [GetUserMedia stream;
                                     NewAudioContext context;
                                     OnError (getErrorMessage e)]))
        | inr analyser =>
          match newMediaRecorder p with
          | inl e =>
              (false, idle true (t ++ [GetUserMedia stream;
                                       NewAudioContext context;
                                       CreateAnalyser context analyser;
                                       OnError (getErrorMessage e)]))
          | inr mime =>
            match recorderStart p with
            | Some e =>
                (false, idle true (t ++ [GetUserMedia stream;
                                         NewAudioContext context;
                                         CreateAnalyser context analyser;
                                         NewMediaRecorder stream;
                                         TrackStop stream;
                                         CloseAudioContext context;
                                         OnError (getErrorMessage e)]))
            | None =>
                (true, started options p stream context analyser mime t)
            end
          end
        end
      end
    end.
Proof.
  destruct p as [gum ctx an rec st now timer].
  unfold startRecording, try_start, Try.bind, Try.call, Try.step, Try.ret,
    Try.throw, started.
  cbn [getUserMedia newAudioContext createAnalyser newMediaRecorder
       recorderStart performance_now setInterval].
  destruct gum as [e|stream]; [cbn; now rewrite ?app_nil_r|].
  destruct ctx as [e|context];
    [eval_hook; cbn; tidy_trace; reflexivity|].
  destruct an as [e|analyser];
    [eval_hook; cbn; tidy_trace; reflexivity|].
  destruct rec as [e|mime];
    [eval_hook; cbn; tidy_trace; reflexivity|].
  destruct st as [e|];
    eval_hook; cbn; tidy_trace; reflexivity.
Qed.

Lemma in_session_started (options : option StartRecordingOptions)
    (p : Platform) (stream context analyser : handle) (mime : string)
    (t : list Effect) :
  in_session (started options p stream context analyser mime t).
Proof. unfold in_session. cbn. repeat split; discriminate. Qed.

(** ** The shape of the reachable hooks *)

Lemma in_session_active (s : Hook) : in_session s -> active s = true.
Proof. unfold in_session. tauto. Qed.

Lemma is_idle_inactive (s : Hook) : is_idle s -> active s = false.
Proof. unfold is_idle. now intros ->. Qed.

Lemma in_session_frame (s s' : Hook) :
  session_frame s' = session_frame s -> active s' = true ->
  in_session s -> in_session s'.
Proof.
  unfold session_frame, in_session.
  intros F Ha H. injection F as -> -> -> _ -> -> -> ->.
  tauto.
Qed.

Lemma start_shape (options : option StartRecordingOptions) (p : Platform)
    (s : Hook) :
  is_idle s \/ in_session s ->
  is_idle (snd (startRecording options p s))
  \/ in_session (snd (startRecording options p s)).
Proof.
  intros [Hidle|Hses].
  - unfold is_idle in Hidle. rewrite Hidle.
    destruct (supportsRecording s).
    + rewrite start_from_idle.
      destruct (getUserMedia p); [left; apply is_idle_idle|].
      destruct (newAudioContext p); [left; apply is_idle_idle|].
      destruct (createAnalyser p); [left; apply is_idle_idle|].
      destruct (newMediaRecorder p); [left; apply is_idle_idle|].
      destruct (recorderStart p); [left; apply is_idle_idle|].
      right. apply in_session_started.
    + left. reflexivity.
  - right. unfold startRecording.
    destruct Hses as (Hi & Hs & Ha & Hrest).
    rewrite Hs, Ha. cbn. unfold in_session. tauto.
Qed.

Lemma stop_shape (promise : handle) (flush : Blob) (s : Hook) :
  is_idle s \/ in_session s -> is_idle (stopRecording promise flush s).
Proof.
  intros [Hidle|Hses].
  - unfold is_idle in Hidle. rewrite Hidle. reflexivity.
  - destruct (active_recorder s (in_session_active s Hses)) as (r & Hr & Hrec).
    rewrite (stopRecording_active promise flush s r Hr Hrec).
    apply is_idle_idle.
Qed.

Lemma unmount_shape (flush : Blob) (s : Hook) :
  is_idle s \/ in_session s -> is_idle (unmount flush s).
Proof.
  intros [Hidle|Hses].
  - unfold is_idle in Hidle. rewrite Hidle. reflexivity.
  - destruct (active_recorder s (in_session_active s Hses)) as (r & Hr & Hrec).
    unfold unmount. rewrite Hr, Hrec, recorder_stop_idle.
    apply is_idle_idle.
Qed.

(** An event ends a session only by the stop of a tick. *)
Lemma handle_event_ends (cfg : CaptureConfig) (flush : Blob) (s : Hook)
    (e : Event) (r : MediaRecorder) :
  recorderRef s = Some r -> is_recording r = true ->
  active (handle_event cfg flush s e) = false ->
  handle_event cfg flush s e
  = idle (supportsRecording s) (trace s ++ stop_effects flush r s).
Proof.
  intros Hr Hrec Hend. destruct e as [now rms|data].
  - cbn [handle_event] in *.
    destruct (monitorTimerRef s).
    + now apply monitor_stopped.
    + rewrite (recorder_active s r Hr Hrec) in Hend. discriminate.
  - pose proof (view_active _ _ (proj1 (view_data cfg flush s data))) as V.
    rewrite (recorder_active s r Hr Hrec) in V. congruence.
Qed.

Lemma handle_event_shape (cfg : CaptureConfig) (flush : Blob) (e : Event)
    (s : Hook) :
  is_idle s \/ in_session s ->
  is_idle (handle_event cfg flush s e)
  \/ in_session (handle_event cfg flush s e).
Proof.
  intros [Hidle|Hses].
  - left. now rewrite handle_event_inactive by now apply is_idle_inactive.
  - destruct (active (handle_event cfg flush s e)) eqn:Hgo.
    + right. apply (in_session_frame s); try assumption.
      now apply handle_event_frame.
    + left.
      destruct (active_recorder s (in_session_active s Hses)) as (r & Hr & Hrec).
      rewrite (handle_event_ends cfg flush s e r Hr Hrec Hgo).
      apply is_idle_idle.
Qed.

(** Between its operations the hook is idle or in a session. *)
Lemma reachable_shape (s : Hook) : reachable s -> is_idle s \/ in_session s.
Proof.
  induction 1.
  - left. reflexivity.
  - now apply start_shape.
  - left. now apply stop_shape.
  - now apply handle_event_shape.
  - left. now apply unmount_shape.
Qed.

(** ** Between a stop and its events *)

Lemma all_or_nothing_view (s s' : Hook) :
  ref_view s' = ref_view s -> all_or_nothing s -> all_or_nothing s'.
Proof.
  unfold ref_view, all_or_nothing. intro V.
  injection V as V1 V2 V3 V4 V5 V6. rewrite V1, V3, V4, V5, V6.
  destruct (recorderRef s), (recorderRef s'); try discriminate; trivial.
Qed.

Lemma with_vad_view (d : bool) (st lv : Q) (s : Hook) :
  ref_view (with_vad d st lv s) = ref_view s.
Proof. open_hook s. reflexivity. Qed.

Lemma stop_called_view (r r0 : MediaRecorder) (s : Hook) :
  recorderRef s = Some r0 -> ref_view (stop_called r s) = ref_view s.
Proof. open_hook s. cbn. now intros ->. Qed.

Lemma set_resolveStopRef_view (k : option handle) (s : Hook) :
  ref_view (set_resolveStopRef k s) = ref_view s.
Proof. open_hook s. reflexivity. Qed.

Lemma ondataavailable_view (r : MediaRecorder) (data : Blob) (s : Hook) :
  ref_view (ondataavailable r data s) = ref_view s.
Proof.
  unfold ondataavailable. destruct (0 <? size data)%nat; [|reflexivity].
  open_hook s. destruct detected; reflexivity.
Qed.

(** After [cleanup] every ref is empty. *)
Lemma cleanup_nothing (s : Hook) : all_or_nothing (cleanup s).
Proof. rewrite cleanup_spec. cbv. repeat split. Qed.

Lemma setIsRecording_nothing (b : bool) (s : Hook) :
  recorderRef s = None -> all_or_nothing s ->
  all_or_nothing (setIsRecording b s).
Proof. open_hook s. unfold all_or_nothing. cbn. now intros ->. Qed.

Lemma emit_view (e : Effect) (s : Hook) : ref_view (emit e s) = ref_view s.
Proof. open_hook s. reflexivity. Qed.

(** A call that finds no recorder recording: lines 268-270. *)
Lemma torn_down_nothing (e : Effect) (s : Hook) :
  all_or_nothing (emit e (setIsRecording false (cleanup s))).
Proof.
  apply (all_or_nothing_view _ _ (emit_view _ _)).
  apply setIsRecording_nothing; [now rewrite cleanup_spec|].
  apply cleanup_nothing.
Qed.

(** The interval callback writes the three cells of the detector, and may
    call [recorder.stop()]. *)
Lemma monitor_call_cases (cfg : CaptureConfig) (now rms : Q) (s : Hook)
    (r : MediaRecorder) :
  recorderRef s = Some r -> is_recording r = true ->
  exists d st lv,
    monitor_call cfg now rms s = with_vad d st lv s
    \/ monitor_call cfg now rms s = stop_called r (with_vad d st lv s).
Proof.
  intros Hr Hrec. unfold monitor_call. rewrite Hr, Hrec. cbn [negb].
  exists (speechDetectedRef s
          || (negb (geb (now - recordingStartedAtRef s) (maxDurationMs cfg))
              && geb (computeRmsLevel rms s) (energyThreshold cfg))).
  destruct (geb (now - recordingStartedAtRef s) (maxDurationMs cfg)).
  { exists (speechStartedAtRef s), (lastVoiceAtRef s). right.
    open_hook s. destruct detected; reflexivity. }
  destruct (speechDetectedRef s) eqn:Hd; cbn [negb orb andb].
  - destruct (geb (computeRmsLevel rms s) (energyThreshold cfg)) eqn:Hl.
    + exists (speechStartedAtRef s), now.
      match goal with
      | |- context [if ?c then _ else _] => destruct c
      end;
      [|match goal with
        | |- context [if ?c then _ else _] => destruct c
        end].
      1,2: right; open_hook s; cbn in Hd; subst; reflexivity.
      left. open_hook s. cbn in Hd; subst. reflexivity.
    + exists (speechStartedAtRef s), (lastVoiceAtRef s).
      match goal with
      | |- context [if ?c then _ else _] => destruct c
      end;
      [|match goal with
        | |- context [if ?c then _ else _] => destruct c
        end].
      1,2: right; open_hook s; cbn in Hd; subst; reflexivity.
      left. open_hook s. cbn in Hd; subst. reflexivity.
  - destruct (geb (computeRmsLevel rms s) (energyThreshold cfg)) eqn:Hl.
    + exists now, now. left. open_hook s. cbn in Hd; subst. reflexivity.
    + exists (speechStartedAtRef s), (lastVoiceAtRef s). left.
      open_hook s. cbn in Hd; subst. reflexivity.
Qed.

Lemma monitor_call_view (cfg : CaptureConfig) (now rms : Q) (s : Hook) :
  ref_view (monitor_call cfg now rms s) = ref_view s.
Proof.
  destruct (recorderRef s) as [r|] eqn:Hr.
  - destruct (is_recording r) eqn:Hrec.
    + destruct (monitor_call_cases cfg now rms s r Hr Hrec)
        as (d & st & lv & [-> | ->]).
      * apply with_vad_view.
      * rewrite (stop_called_view r r); [apply with_vad_view|].
        open_hook s. exact Hr.
    + unfold monitor_call. now rewrite Hr, Hrec.
  - unfold monitor_call. now rewrite Hr.
Qed.

(** The task of a stop leaves every ref empty and [isRecording] false. *)
Lemma stop_task_nothing (flush : Blob) (r : MediaRecorder) (s : Hook) :
  all_or_nothing (stop_task flush r s)
  /\ recorderRef (stop_task flush r s) = None
  /\ isRecording (stop_task flush r s) = false.
Proof.
  unfold stop_task, ondataavailable.
  destruct (0 <? size flush)%nat;
    open_hook s; destruct r as [st mime];
    destruct detected, timer, stream, context, resolver; eval_hook;
    unfold all_or_nothing; cbn; repeat split.
Qed.

Lemma start_all_or_nothing (options : option StartRecordingOptions)
    (p : Platform) (s : Hook) :
  all_or_nothing s -> all_or_nothing (snd (startRecording options p s)).
Proof.
  intro H. unfold startRecording.
  destruct (supportsRecording s); cbn [negb];
    [|exact (all_or_nothing_view _ _ (emit_view _ _) H)].
  destruct (active s); [exact H|].
  destruct p as [gum ctx an rec st now timer].
  unfold try_start, Try.bind, Try.call, Try.step, Try.ret, Try.throw.
  cbn [getUserMedia newAudioContext createAnalyser newMediaRecorder
       recorderStart performance_now setInterval].
  destruct gum as [e|stream]; [apply torn_down_nothing|].
  destruct ctx as [e|context]; [apply torn_down_nothing|].
  destruct an as [e|analyser]; [apply torn_down_nothing|].
  destruct rec as [e|mime]; [apply torn_down_nothing|].
  destruct st as [e|]; [apply torn_down_nothing|].
  cbv. repeat split; discriminate.
Qed.

Lemma stopRecording_call_all_or_nothing (promise : handle) (s : Hook) :
  all_or_nothing s -> all_or_nothing (stopRecording_call promise s).
Proof.
  intro H. unfold stopRecording_call.
  destruct (recorderRef s) as [r|] eqn:Hr; [|apply torn_down_nothing].
  destruct (is_recording r); [|apply torn_down_nothing].
  apply (all_or_nothing_view s); [|exact H].
  rewrite (stop_called_view r r); [apply set_resolveStopRef_view|].
  open_hook s. exact Hr.
Qed.

Lemma unmount_call_all_or_nothing (s : Hook) :
  all_or_nothing s -> all_or_nothing (unmount_call s).
Proof.
  intro H. unfold unmount_call.
  destruct (recorderRef s) as [r|] eqn:Hr; [|apply cleanup_nothing].
  destruct (is_recording r); [|apply cleanup_nothing].
  exact (all_or_nothing_view _ _ (stop_called_view r r s Hr) H).
Qed.

(** A stop is its call followed by its task. *)
Lemma recorder_stop_split (flush : Blob) (r : MediaRecorder) (s : Hook) :
  recorder_stop flush r s = stop_task flush r (stop_called r s).
Proof. reflexivity. Qed.

Lemma settle_stop_called (flush : Blob) (r : MediaRecorder) (s : Hook) :
  settle flush (stop_called r s) = recorder_stop flush r s.
Proof. open_hook s. reflexivity. Qed.

Lemma settle_recording (flush : Blob) (s : Hook) :
  active s = true -> settle flush s = s.
Proof.
  unfold active, settle. destruct (recorderRef s) as [r|]; [|reflexivity].
  now intros ->.
Qed.

Lemma settle_empty (flush : Blob) (s : Hook) :
  recorderRef s = None -> settle flush s = s.
Proof. unfold settle. now intros ->. Qed.

(** [stopRecording] at rest is its call followed by the task of the stop. *)
Lemma stopRecording_settles (promise : handle) (flush : Blob) (s : Hook) :
  stopRecording promise flush s = settle flush (stopRecording_call promise s).
Proof.
  unfold stopRecording, stopRecording_call.
  destruct (recorderRef s) as [r|] eqn:Hr.
  - destruct (is_recording r); [now rewrite settle_stop_called|].
    rewrite settle_empty; [reflexivity|]. now rewrite cleanup_spec.
  - rewrite settle_empty; [reflexivity|]. now rewrite cleanup_spec.
Qed.

Lemma unmount_settles (flush : Blob) (s : Hook) :
  unmount flush s = settle flush (unmount_call s).
Proof.
  unfold unmount, unmount_call.
  destruct (recorderRef s) as [r|] eqn:Hr.
  - destruct (is_recording r); [now rewrite settle_stop_called|].
    rewrite settle_empty; [reflexivity|]. now rewrite cleanup_spec.
  - rewrite settle_empty; [reflexivity|]. now rewrite cleanup_spec.
Qed.

(** The interval callback at rest is its call followed, if it stopped the
    recorder, by the task of the stop. *)
Lemma monitor_settles (cfg : CaptureConfig) (flush : Blob) (now rms : Q)
    (s : Hook) :
  active s = true ->
  monitor cfg flush now rms s = settle flush (monitor_call cfg now rms s).
Proof.
  intro Ha. destruct (active_recorder s Ha) as (r & Hr & Hrec).
  unfold monitor, monitor_call. rewrite Hr, Hrec. cbn [negb].
  assert (Keep : forall d st lv,
            settle flush (with_vad d st lv s) = with_vad d st lv s).
  { intros d st lv. apply settle_recording.
    now rewrite active_with_vad. }
  destruct (geb (now - recordingStartedAtRef s) (maxDurationMs cfg));
    [now rewrite settle_stop_called|].
  destruct (negb (speechDetectedRef s)).
  - destruct (geb (computeRmsLevel rms s) (energyThreshold cfg)).
    + exact (eq_sym (Keep true now now)).
    + symmetry. now apply settle_recording.
  - cbv zeta.
    assert (Going : forall s1 : Hook, active s1 = true ->
              (if geb (now - speechStartedAtRef s1) (maxDurationMs cfg)
               then recorder_stop flush r s1
               else if geb (now - speechStartedAtRef s1) (minDurationMs cfg)
                       && geb (now - lastVoiceAtRef s1) (endSilenceMs cfg)
                    then recorder_stop flush r s1 else s1)
              = settle flush
                  (if geb (now - speechStartedAtRef s1) (maxDurationMs cfg)
                   then stop_called r s1
                   else if geb (now - speechStartedAtRef s1) (minDurationMs cfg)
                           && geb (now - lastVoiceAtRef s1) (endSilenceMs cfg)
                        then stop_called r s1 else s1)).
    { intros s1 H1.
      destruct (geb (now - speechStartedAtRef s1) (maxDurationMs cfg));
        [now rewrite settle_stop_called|].
      destruct (geb (now - speechStartedAtRef s1) (minDurationMs cfg)
                && geb (now - lastVoiceAtRef s1) (endSilenceMs cfg));
        [now rewrite settle_stop_called|].
      symmetry. now apply settle_recording. }
    destruct (geb (computeRmsLevel rms s) (energyThreshold cfg)).
    + apply Going. open_hook s. exact Ha.
    + now apply Going.
Qed.

(** The states the hook rests in are among those between two tasks. *)
Lemma reachable_between_tasks (s : Hook) : reachable s -> between_tasks s.
Proof.
  induction 1 as [supported|options p s _ IH|promise flush s _ IH
                  |cfg flush e s _ IH|flush s _ IH].
  - constructor.
  - now constructor.
  - rewrite stopRecording_settles. unfold settle.
    pose proof (task_stopRecording promise s IH) as T.
    destruct (recorderRef (stopRecording_call promise s)) as [r|];
      [|exact T].
    destruct (is_recording r); [exact T|]. now constructor.
  - destruct (active s) eqn:Ha.
    + destruct e as [now rms|data]; cbn [handle_event].
      * destruct (monitorTimerRef s); [|exact IH].
        rewrite (monitor_settles cfg flush now rms s Ha). unfold settle.
        pose proof (task_tick cfg now rms s IH) as T.
        destruct (recorderRef (monitor_call cfg now rms s)) as [r|];
          [|exact T].
        destruct (is_recording r); [exact T|]. now constructor.
      * destruct (recorderRef s) as [r|]; [|exact IH].
        destruct (is_recording r); [|exact IH]. now constructor.
    + now rewrite handle_event_inactive.
  - rewrite unmount_settles. unfold settle.
    pose proof (task_unmount s IH) as T.
    destruct (recorderRef (unmount_call s)) as [r|]; [|exact T].
    destruct (is_recording r); [exact T|]. now constructor.
Qed.

Lemma between_tasks_all_or_nothing (s : Hook) :
  between_tasks s -> all_or_nothing s.
Proof.
  induction 1 as [supported|options p s _ IH|promise s _ IH
                  |cfg now rms s _ IH|recorder data s _ IH
                  |flush recorder s _ IH|s _ IH].
  - cbv. repeat split.
  - now apply start_all_or_nothing.
  - now apply stopRecording_call_all_or_nothing.
  - exact (all_or_nothing_view _ _ (monitor_call_view cfg now rms s) IH).
  - exact (all_or_nothing_view _ _ (ondataavailable_view recorder data s) IH).
  - apply stop_task_nothing.
  - now apply unmount_call_all_or_nothing.
Qed.

(** X1. Between any two tasks of the page, a call of [startRecording] being
    one of them, the refs of a session are all set or all empty: when
    [recorderRef] holds a recorder, recording or stopped with its events
    still queued, [isRecording] is true and the stream, the analyser, the
    audio context and the timer are there; when it holds none, these four
    are empty.  [isRecording] does not tell that a recorder records: once
    [recorder.stop()] is called and until its events arrive it is true with
    an inactive recorder, and then the interval callback does nothing, and
    [stopRecording] and the unmount tear down at once.  Each operation at
    rest is its call followed by the task of the stop it called. *)
Theorem refs_all_or_nothing (s : Hook) :
  between_tasks s ->
  all_or_nothing s
  /\ (stopping s ->
      isRecording s = true /\ active s = false
      /\ (forall cfg now rms, monitor_call cfg now rms s = s)
      /\ (forall promise,
            stopRecording_call promise s
            = emit (Resolve promise None) (setIsRecording false (cleanup s)))
      /\ unmount_call s = cleanup s)
  /\ (forall promise flush,
        stopRecording promise flush s
        = settle flush (stopRecording_call promise s))
  /\ (forall flush, unmount flush s = settle flush (unmount_call s))
  /\ (forall cfg flush now rms,
        monitor cfg flush now rms s
        = if active s then settle flush (monitor_call cfg now rms s)
          else monitor_call cfg now rms s).
Proof.
  intro H. pose proof (between_tasks_all_or_nothing s H) as A.
  split; [exact A|]. split; [|split; [|split]].
  - intros (r & Hr & Hst). unfold all_or_nothing in A. rewrite Hr in A.
    destruct A as (Hi & _).
    assert (Hrec : is_recording r = false).
    { unfold is_recording. destruct (state r); congruence. }
    split; [exact Hi|]. split; [unfold active; now rewrite Hr|].
    split; [intros cfg now rms; unfold monitor_call; now rewrite Hr, Hrec|].
    split; [intro promise; unfold stopRecording_call; now rewrite Hr, Hrec|].
    unfold unmount_call. now rewrite Hr, Hrec.
  - intros promise flush. apply stopRecording_settles.
  - intro flush. apply unmount_settles.
  - intros cfg flush now rms. destruct (active s) eqn:Ha.
    + now apply monitor_settles.
    + unfold active in Ha. unfold monitor, monitor_call.
      destruct (recorderRef s) as [r|]; [|reflexivity].
      now rewrite Ha.
Qed.

(** X2. In every state the hook reaches, the answer of [startRecording]
    tells whether a recorder is recording when it returns, and the
    [isRecording] flag agrees with it. *)
Theorem start_answer_is_recording (options : option StartRecordingOptions)
    (p : Platform) (s : Hook) :
  reachable s ->
  fst (startRecording options p s) = active (snd (startRecording options p s))
  /\ fst (startRecording options p s)
     = isRecording (snd (startRecording options p s)).
Proof.
  intro Hreach. destruct (reachable_shape s Hreach) as [Hidle|Hses].
  - unfold is_idle in Hidle. rewrite Hidle.
    destruct (supportsRecording s); [|split; reflexivity].
    rewrite start_from_idle.
    destruct (getUserMedia p); [split; reflexivity|].
    destruct (newAudioContext p); [split; reflexivity|].
    destruct (createAnalyser p); [split; reflexivity|].
    destruct (newMediaRecorder p); [split; reflexivity|].
    destruct (recorderStart p); split; reflexivity.
  - destruct Hses as (Hi & Hs & Ha & _).
    unfold startRecording. rewrite Hs, Ha. cbn. now rewrite Hi, Ha.
Qed.

(** X3. On an idle hook in a supporting browser, [startRecording] answers
    [true] exactly when every call of the browser succeeds (the device, the
    audio context, the analyser, the recorder and its start), and the hook
    is then in a fresh session: no chunk, no speech, the start time read
    from the clock, and the recorder and the timer started with the
    effective timeslice and sample interval. *)
Theorem start_succeeds_iff (options : option StartRecordingOptions)
    (p : Platform) (t : list Effect) :
  fst (startRecording options p (idle true t)) = all_succeed p
  /\ (all_succeed p = true ->
      exists stream context analyser mime,
        getUserMedia p = inr stream /\ newAudioContext p = inr context
        /\ createAnalyser p = inr analyser /\ newMediaRecorder p = inr mime
        /\ snd (startRecording options p (idle true t))
           = started options p stream context analyser mime t).
Proof.
  rewrite start_from_idle. unfold all_succeed.
  destruct (getUserMedia p) as [|stream]; [split; [reflexivity|discriminate]|].
  destruct (newAudioContext p) as [|context];
    [split; [reflexivity|discriminate]|].
  destruct (createAnalyser p) as [|analyser];
    [split; [reflexivity|discriminate]|].
  destruct (newMediaRecorder p) as [|mime];
    [split; [reflexivity|discriminate]|].
  destruct (recorderStart p); [split; [reflexivity|discriminate]|].
  split; [reflexivity|]. intros _.
  exists stream, context, analyser, mime. repeat split.
Qed.

(** ** Reporting a failed start *)

Lemma getErrorMessage_reported (error : Thrown) :
  getErrorMessage error = reported_text error.
Proof. destruct error as [[|c m]|[|c m]|]; reflexivity. Qed.

(** The text reported is never empty. *)
Lemma reported_text_nonempty (e : Thrown) : reported_text e <> "".
Proof. destruct e as [[|c m]|[|c m]|]; discriminate. Qed.

(** What there is to report, by whether a recorder is recording. *)
Lemma expected_report_active (s : Hook) (p : Platform) :
  expected_report s p
  = if supportsRecording s then
      if active s then None else option_map reported_text (first_failure p)
    else Some "Your browser does not support microphone recording.".
Proof.
  unfold expected_report, active, is_recording.
  destruct (supportsRecording s); [|reflexivity].
  destruct (recorderRef s) as [r|]; [|reflexivity].
  cbn [option_map]. destruct (state r); reflexivity.
Qed.

(** A call that passes the two guards reports the first call that throws,
    and answers [true] when none does. *)
Lemma start_attempt_reports (options : option StartRecordingOptions)
    (p : Platform) (s : Hook) :
  supportsRecording s = true -> active s = false ->
  errors (trace (snd (startRecording options p s)))
  = errors (trace s)
    ++ match first_failure p with
       | Some e => [reported_text e]
       | None => []
       end
  /\ fst (startRecording options p s)
     = match first_failure p with
       | Some _ => false
       | None => true
       end.
Proof.
  intros Hs Ha. unfold startRecording. rewrite Hs, Ha. cbn [negb].
  destruct p as [gum ctx an rec st now timer].
  unfold try_start, first_failure, Try.bind, Try.call, Try.step, Try.ret,
    Try.throw.
  cbn [getUserMedia newAudioContext createAnalyser newMediaRecorder
       recorderStart performance_now setInterval].
  destruct gum as [e|stream].
  { split; [|reflexivity]. cbn [fst snd]. rewrite cleanup_spec.
    cbn [trace emit setIsRecording]. rewrite !errors_app.
    destruct (teardown_releases_only s) as (_ & _ & _ & _ & ->).
    rewrite getErrorMessage_reported. now rewrite app_nil_r. }
  destruct ctx as [e|context].
  { split; [|reflexivity]. cbn [fst snd]. rewrite cleanup_spec.
    cbn [trace emit setIsRecording]. rewrite !errors_app.
    match goal with
    | |- context [teardown ?x] =>
        destruct (teardown_releases_only x) as (_ & _ & _ & _ & ->)
    end.
    rewrite getErrorMessage_reported. cbn. now rewrite !app_nil_r. }
  destruct an as [e|analyser].
  { split; [|reflexivity]. cbn [fst snd]. rewrite cleanup_spec.
    cbn [trace emit setIsRecording]. rewrite !errors_app.
    match goal with
    | |- context [teardown ?x] =>
        destruct (teardown_releases_only x) as (_ & _ & _ & _ & ->)
    end.
    rewrite getErrorMessage_reported. cbn. now rewrite !app_nil_r. }
  destruct rec as [e|mime].
  { split; [|reflexivity]. cbn [fst snd]. rewrite cleanup_spec.
    cbn [trace emit setIsRecording]. rewrite !errors_app.
    match goal with
    | |- context [teardown ?x] =>
        destruct (teardown_releases_only x) as (_ & _ & _ & _ & ->)
    end.
    rewrite getErrorMessage_reported. cbn. now rewrite !app_nil_r. }
  destruct st as [e|].
  { split; [|reflexivity]. cbn [fst snd]. rewrite cleanup_spec.
    cbn [trace emit setIsRecording]. rewrite !errors_app.
    match goal with
    | |- context [teardown ?x] =>
        destruct (teardown_releases_only x) as (_ & _ & _ & _ & ->)
    end.
    rewrite getErrorMessage_reported. cbn. now rewrite !app_nil_r. }
  split; [|reflexivity].
  cbn [fst snd]. cbn [trace emit setIsRecording set_recorderRef
    set_monitorTimerRef]. rewrite !errors_app. cbn. now rewrite !app_nil_r.
Qed.

(** X4. Whatever the state of the hook, the options and the answers of the
    browser, [startRecording] answers [false] exactly when it has something
    to report, and it then calls [onError] once, with that text; it does not
    call it when it answers [true].  The text is: in a browser without
    support, that the browser does not support microphone recording; else,
    unless a recorder is recording, for the first call of the browser that
    throws, the message of the exception, or that the microphone cannot be
    accessed when that message is empty or what was thrown is not an error.
    The text is never empty, and it is the text of [getErrorMessage]. *)
Theorem start_reports_failure_once (options : option StartRecordingOptions)
    (p : Platform) (s : Hook) :
  errors (trace (snd (startRecording options p s)))
  = errors (trace s)
    ++ match expected_report s p with
       | Some text => [text]
       | None => []
       end
  /\ fst (startRecording options p s)
     = match expected_report s p with
       | Some _ => false
       | None => true
       end
  /\ expected_report s p <> Some ""
  /\ (forall error : Thrown, getErrorMessage error = reported_text error).
Proof.
  rewrite expected_report_active.
  destruct (supportsRecording s) eqn:Hs.
  - destruct (active s) eqn:Ha.
    + unfold startRecording. rewrite Hs, Ha. cbn.
      rewrite app_nil_r. repeat split; [discriminate|].
      exact getErrorMessage_reported.
    + destruct (start_attempt_reports options p s Hs Ha) as [He Hf].
      rewrite He, Hf.
      destruct (first_failure p) as [e|]; cbn [option_map].
      * repeat split; [|exact getErrorMessage_reported].
        intro H. injection H as H. exact (reported_text_nonempty e H).
      * repeat split; [discriminate|exact getErrorMessage_reported].
  - unfold startRecording. rewrite Hs. cbn. rewrite errors_app.
    repeat split; [discriminate|exact getErrorMessage_reported].
Qed.

(** ** A browser without support *)

Lemma start_supports (options : option StartRecordingOptions) (p : Platform)
    (s : Hook) :
  supportsRecording (snd (startRecording options p s)) = supportsRecording s.
Proof.
  unfold startRecording.
  destruct (supportsRecording s) eqn:Hs; cbn [negb]; [|exact Hs].
  destruct (active s); [exact Hs|].
  pose proof (try_start_supports (effective_config options) p s) as T.
  destruct (try_start (effective_config options) p s) as [[err|ok] s'];
    cbn [snd] in *.
  - rewrite cleanup_spec. cbn. congruence.
  - congruence.
Qed.

Lemma stop_supports (promise : handle) (flush : Blob) (s : Hook) :
  supportsRecording (stopRecording promise flush s) = supportsRecording s.
Proof.
  unfold stopRecording.
  destruct (recorderRef s) as [r|]; [destruct (is_recording r)|];
    rewrite ?recorder_stop_idle, ?cleanup_spec; reflexivity.
Qed.

Lemma unmount_supports (flush : Blob) (s : Hook) :
  supportsRecording (unmount flush s) = supportsRecording s.
Proof.
  unfold unmount.
  destruct (recorderRef s) as [r|]; [destruct (is_recording r)|];
    rewrite ?recorder_stop_idle, ?cleanup_spec; reflexivity.
Qed.

Lemma handle_event_supports (cfg : CaptureConfig) (flush : Blob) (e : Event)
    (s : Hook) :
  supportsRecording (handle_event cfg flush s e) = supportsRecording s.
Proof.
  destruct (active (handle_event cfg flush s e)) eqn:Hgo.
  - pose proof (handle_event_frame cfg flush s e Hgo) as F.
    unfold session_frame in F. congruence.
  - destruct (active s) eqn:Ha.
    + destruct (active_recorder s Ha) as (r & Hr & Hrec).
      now rewrite (handle_event_ends cfg flush s e r Hr Hrec Hgo).
    + now rewrite handle_event_inactive.
Qed.

Lemma idle_unsupported (s : Hook) :
  is_idle s -> supportsRecording s = false -> s = idle false (trace s).
Proof. unfold is_idle. now intros H <-. Qed.

(** The mount effect finds recording supported only with all five
    capabilities. *)
Lemma detectSupport_all (env : Environment) :
  detectSupport env = true
  <-> has_window env = true /\ has_navigator env = true
      /\ has_getUserMedia env = true /\ has_MediaRecorder env = true
      /\ has_AudioContext env = true.
Proof. unfold detectSupport. rewrite !andb_true_iff. tauto. Qed.

(** X5. Once the mount effect has found recording unsupported (the flag
    [supportsRecording] is false, as it is when one of the five capabilities
    it probes is missing), the hook never leaves the idle state: whatever
    is called and whatever happens, it acquires no device and builds no
    audio context, analyser, recorder or timer, and it calls neither
    [onRecordingChunk] nor [onRecordingComplete]. *)
Theorem unsupported_never_acquires (s : Hook) :
  reachable s -> supportsRecording s = false ->
  is_idle s
  /\ acquisitions (trace s) = []
  /\ completions (trace s) = []
  /\ snapshots (trace s) = [].
Proof.
  induction 1 as [supported|options p s Hs IH|promise flush s Hs IH
                  |cfg flush e s Hs IH|flush s Hs IH]; intro Hsup.
  - repeat split.
  - rewrite start_supports in Hsup.
    destruct (IH Hsup) as (Hidle & Ha & Hc & Hn).
    unfold startRecording. rewrite Hsup. cbn [negb snd].
    rewrite (idle_unsupported s Hidle Hsup). cbn.
    rewrite acquisitions_app, completions_app, snapshots_app, Ha, Hc, Hn.
    repeat split.
  - rewrite stop_supports in Hsup.
    destruct (IH Hsup) as (Hidle & Ha & Hc & Hn).
    rewrite (idle_unsupported s Hidle Hsup). cbn.
    rewrite acquisitions_app, completions_app, snapshots_app, Ha, Hc, Hn.
    repeat split.
  - rewrite handle_event_supports in Hsup.
    destruct (IH Hsup) as (Hidle & Ha & Hc & Hn).
    rewrite handle_event_inactive by now apply is_idle_inactive.
    repeat split; assumption.
  - rewrite unmount_supports in Hsup.
    destruct (IH Hsup) as (Hidle & Ha & Hc & Hn).
    rewrite (idle_unsupported s Hidle Hsup). cbn.
    repeat split; assumption.
Qed.

(** ** What a session leaves alive *)

Lemma live_streams_from_app (t u : list Effect) :
  forall live, live_streams_from live (t ++ u)
               = live_streams_from (live_streams_from live t) u.
Proof. induction t as [|e t IH]; intro live; [reflexivity|]. destruct e; apply IH. Qed.

Lemma open_contexts_from_app (t u : list Effect) :
  forall live, open_contexts_from live (t ++ u)
               = open_contexts_from (open_contexts_from live t) u.
Proof. induction t as [|e t IH]; intro live; [reflexivity|]. destruct e; apply IH. Qed.

Lemma live_timers_from_app (t u : list Effect) :
  forall live, live_timers_from live (t ++ u)
               = live_timers_from (live_timers_from live t) u.
Proof. induction t as [|e t IH]; intro live; [reflexivity|]. destruct e; apply IH. Qed.

Lemma remove_handle_last (h : handle) (l : list handle) :
  remove_handle h (l ++ [h]) = remove_handle h l.
Proof.
  unfold remove_handle. rewrite filter_app. cbn.
  rewrite Nat.eqb_refl. cbn. apply app_nil_r.
Qed.

Lemma ledger_app (t u : list Effect) :
  ledger (t ++ u)
  = (live_streams_from (live_streams t) u,
     open_contexts_from (open_contexts t) u,
     live_timers_from (live_timers t) u).
Proof.
  unfold ledger, live_streams, open_contexts, live_timers.
  now rewrite live_streams_from_app, open_contexts_from_app,
    live_timers_from_app.
Qed.

(** A stop releases what the refs hold and nothing else. *)
Lemma ledger_stop (flush : Blob) (r : MediaRecorder) (s : Hook)
    (t : list Effect) :
  ledger (t ++ stop_effects flush r s) = release s (ledger t).
Proof.
  rewrite ledger_app. unfold release, ledger, stop_effects, teardown.
  destruct ((0 <? size flush)%nat && speechDetectedRef s),
    (monitorTimerRef s), (mediaStreamRef s), (audioContextRef s),
    (resolveStopRef s); reflexivity.
Qed.

Lemma ledger_teardown (s : Hook) (t : list Effect) :
  ledger (t ++ teardown s) = release s (ledger t).
Proof.
  rewrite ledger_app. unfold release, ledger, teardown.
  destruct (monitorTimerRef s), (mediaStreamRef s), (audioContextRef s);
    reflexivity.
Qed.

Lemma release_frame (s s' : Hook) (l : list handle * list handle * list handle) :
  session_frame s' = session_frame s -> release s' l = release s l.
Proof.
  unfold session_frame, release. intro F.
  injection F as _ _ -> _ _ -> -> _ _. reflexivity.
Qed.

(** The trace of an event that leaves the session recording: nothing, or
    one snapshot. *)
Lemma step_trace_going (cfg : CaptureConfig) (flush : Blob) (s : Hook)
    (e : Event) :
  active (handle_event cfg flush s e) = true ->
  trace (handle_event cfg flush s e) = trace s
  \/ exists b, trace (handle_event cfg flush s e)
               = trace s ++ [OnRecordingChunk b].
Proof.
  intro Hgo. destruct e as [now rms|data].
  - destruct (handle_tick_continues cfg flush now rms s Hgo)
      as (d & st & lv & -> & _).
    now left.
  - destruct (active_recorder s (active_inactive_step _ _ _ _ Hgo))
      as (r & Hr & Hrec).
    rewrite (handle_data cfg flush data s r Hr Hrec).
    destruct (nonempty data); [destruct (speechDetectedRef s)|].
    + right. eexists. reflexivity.
    + now left.
    + now left.
Qed.

Lemma ledger_chunk (t : list Effect) (b : Blob) :
  ledger (t ++ [OnRecordingChunk b]) = ledger t.
Proof. now rewrite ledger_app. Qed.

(** Along a run, the ledger of a session is untouched as long as the
    session records, and loses what the refs hold when it stops. *)
Lemma run_ledger (cfg : CaptureConfig) (flush : Blob) (events : list Event) :
  forall s : Hook,
    active s = true ->
    ledger (trace (run cfg flush s events))
    = if active (run cfg flush s events) then ledger (trace s)
      else release s (ledger (trace s)).
Proof.
  induction events as [|e rest IH]; intros s Ha.
  - cbn. now rewrite Ha.
  - rewrite run_cons.
    destruct (active (handle_event cfg flush s e)) eqn:Hgo.
    + rewrite (IH _ Hgo).
      rewrite (release_frame s _ _ (handle_event_frame cfg flush s e Hgo)).
      destruct (step_trace_going cfg flush s e Hgo) as [->|(b & ->)];
        [reflexivity|].
      now rewrite ledger_chunk.
    + rewrite run_inactive by assumption. rewrite Hgo.
      destruct (active_recorder s Ha) as (r & Hr & Hrec).
      rewrite (handle_event_ends cfg flush s e r Hr Hrec Hgo).
      cbn [trace idle]. apply ledger_stop.
Qed.

Lemma run_shape (cfg : CaptureConfig) (flush : Blob) (events : list Event) :
  forall s : Hook,
    is_idle s \/ in_session s ->
    is_idle (run cfg flush s events) \/ in_session (run cfg flush s events).
Proof.
  induction events as [|e rest IH]; intros s H; [exact H|].
  rewrite run_cons. apply IH. now apply handle_event_shape.
Qed.

Lemma started_releases_everything (options : option StartRecordingOptions)
    (p : Platform) (stream context analyser : handle) (mime : string)
    (t : list Effect) (cfg : CaptureConfig) (flush : Blob)
    (events : list Event) (promise : handle) :
  let s := started options p stream context analyser mime t in
  let final := stopRecording promise flush (run cfg flush s events) in
  is_idle final
  /\ ledger (trace final)
     = (remove_handle stream (live_streams t),
        remove_handle context (open_contexts t),
        remove_handle (setInterval p) (live_timers t)).
Proof.
  intros s final.
  assert (Hses : in_session s) by apply in_session_started.
  pose proof (run_shape cfg flush events s (or_intror Hses)) as Hshape.
  split; [now apply stop_shape|].
  assert (Hledger : release s (ledger (trace s))
                    = (remove_handle stream (live_streams t),
                       remove_handle context (open_contexts t),
                       remove_handle (setInterval p) (live_timers t))).
  { unfold s, started. cbn [trace]. rewrite ledger_app.
    cbn [release mediaStreamRef audioContextRef monitorTimerRef
         live_streams_from open_contexts_from live_timers_from].
    now rewrite !remove_handle_last. }
  pose proof (run_ledger cfg flush events s (in_session_active s Hses)) as L.
  subst final. destruct Hshape as [Hidle|Hgo].
  - rewrite (is_idle_inactive _ Hidle) in L.
    unfold is_idle in Hidle. rewrite Hidle. cbn.
    rewrite ledger_app. cbn.
    change (live_streams (trace (run cfg flush s events)),
            open_contexts (trace (run cfg flush s events)),
            live_timers (trace (run cfg flush s events)))
      with (ledger (trace (run cfg flush s events))).
    now rewrite L.
  - pose proof (in_session_active _ Hgo) as Ha. rewrite Ha in L.
    destruct (active_recorder _ Ha) as (r & Hr & Hrec).
    rewrite (stopRecording_active promise flush _ r Hr Hrec).
    cbn [trace idle]. rewrite ledger_stop, L.
    change (release (set_resolveStopRef (Some promise) (run cfg flush s events)))
      with (release (run cfg flush s events)).
    rewrite (release_frame s _ _ (run_frame cfg flush events s Ha)).
    exact Hledger.
Qed.

(** X6. On an idle hook in a supporting browser, a start in which every
    call succeeds opens a session that, whatever happens to it afterwards
    and whether it stops by itself or not, has released the stream, the
    audio context and the timer it acquired once [stopRecording] has
    returned: the trace leaves alive what was alive before the start,
    without the stream, the audio context and the timer of the session, and
    the hook is idle again. *)
Theorem session_releases_everything (options : option StartRecordingOptions)
    (p : Platform) (stream context : handle) (t : list Effect)
    (cfg : CaptureConfig) (flush : Blob) (events : list Event)
    (promise : handle) :
  all_succeed p = true ->
  getUserMedia p = inr stream -> newAudioContext p = inr context ->
  let s := snd (startRecording options p (idle true t)) in
  let final := stopRecording promise flush (run cfg flush s events) in
  is_idle final
  /\ ledger (trace final)
     = (remove_handle stream (live_streams t),
        remove_handle context (open_contexts t),
        remove_handle (setInterval p) (live_timers t)).
Proof.
  intros Hall Hgum Hctx. rewrite start_from_idle.
  unfold all_succeed in Hall. rewrite Hgum, Hctx in *.
  destruct (createAnalyser p) as [|analyser]; [discriminate|].
  destruct (newMediaRecorder p) as [|mime]; [discriminate|].
  destruct (recorderStart p); [discriminate|].
  apply started_releases_everything.
Qed.

(** ** Timers *)





(** ** Completions *)

(** Along a run of a session with no stop pending, nothing is resolved, and
    [onRecordingComplete] is called once if the session stopped and not at
    all if it still records. *)
Lemma run_completions (cfg : CaptureConfig) (flush : Blob)
    (events : list Event) :
  forall s : Hook,
    active s = true -> resolveStopRef s = None ->
    resolutions (trace (run cfg flush s events)) = resolutions (trace s)
    /\ exists b,
         completions (trace (run cfg flush s events))
         = completions (trace s)
           ++ (if active (run cfg flush s events) then [] else [b]).
Proof.
  induction events as [|e rest IH]; intros s Ha Hk.
  - cbn. rewrite Ha. split; [reflexivity|]. exists None. now rewrite app_nil_r.
  - rewrite run_cons.
    destruct (active (handle_event cfg flush s e)) eqn:Hgo.
    + pose proof (handle_event_frame cfg flush s e Hgo) as F.
      assert (Hk' : resolveStopRef (handle_event cfg flush s e) = None).
      { now rewrite (frame_resolver _ _ F). }
      destruct (IH _ Hgo Hk') as (Hres & b & Hcomp).
      rewrite Hres, Hcomp.
      destruct (step_trace_going cfg flush s e Hgo) as [->|(c & ->)].
      * split; [reflexivity|now exists b].
      * rewrite resolutions_app, completions_app. cbn.
        rewrite !app_nil_r. split; [reflexivity|now exists b].
    + rewrite run_inactive by assumption. rewrite Hgo.
      destruct (active_recorder s Ha) as (r & Hr & Hrec).
      rewrite (handle_event_ends cfg flush s e r Hr Hrec Hgo).
      cbn [trace idle].
      rewrite resolutions_app, completions_app, resolutions_stop_effects,
        completions_stop_effects, Hk, app_nil_r.
      split; [reflexivity|]. now exists (finalize flush r s).
Qed.

Lemma stopRecording_idle (promise : handle) (flush : Blob) (s : Hook) :
  is_idle s ->
  stopRecording promise flush s
  = idle (supportsRecording s) (trace s ++ [Resolve promise None]).
Proof. unfold is_idle. intro H. rewrite H. reflexivity. Qed.

(** X8. A session completes exactly once. Take a session in progress, let
    any ticks and chunks happen and then call [stopRecording]:
    [onRecordingComplete] has been called exactly once, by the tick that
    stopped the session or else by this call, and the promise of the call
    is resolved exactly once, with the blob of the completion if the session
    was still recording and with nothing if it had already stopped. *)
Theorem session_completes_once (cfg : CaptureConfig) (flush : Blob)
    (events : list Event) (promise : handle) (s : Hook) :
  in_session s ->
  let s1 := run cfg flush s events in
  let final := stopRecording promise flush s1 in
  exists b,
    completions (trace final) = completions (trace s) ++ [b]
    /\ resolutions (trace final)
       = resolutions (trace s) ++ [(promise, if active s1 then b else None)].
Proof.
  intros Hses s1 final.
  pose proof Hses as (_ & _ & Ha & _ & _ & _ & _ & Hk).
  destruct (run_completions cfg flush events s Ha Hk) as (Hres & b & Hcomp).
  fold s1 in Hres, Hcomp.
  destruct (run_shape cfg flush events s (or_intror Hses)) as [Hidle|Hgo];
    fold s1 in Hidle || fold s1 in Hgo.
  - rewrite (is_idle_inactive _ Hidle) in Hcomp |- *.
    exists b. subst final. rewrite (stopRecording_idle promise flush s1 Hidle).
    cbn [trace idle].
    rewrite completions_app, resolutions_app, Hcomp, Hres. cbn.
    now rewrite app_nil_r.
  - pose proof (in_session_active _ Hgo) as Ha1.
    rewrite Ha1 in Hcomp |- *. rewrite app_nil_r in Hcomp.
    destruct (active_recorder _ Ha1) as (r & Hr & Hrec).
    exists (finalize flush r s1). subst final.
    rewrite (stopRecording_active promise flush s1 r Hr Hrec).
    cbn [trace idle].
    rewrite completions_app, resolutions_app, completions_stop_effects,
      resolutions_stop_effects, finalize_resolver, Hcomp, Hres.
    split; reflexivity.
Qed.


(** ** The timestamps of the speech *)

(** What a tick writes when the session goes on. *)
Lemma monitor_going (cfg : CaptureConfig) (flush : Blob) (now rms : Q)
    (s : Hook) :
  active (monitor cfg flush now rms s) = true ->
  let loud := geb (computeRmsLevel rms s) (energyThreshold cfg) in
  monitor cfg flush now rms s
  = with_vad (speechDetectedRef s || loud)
      (if speechDetectedRef s then speechStartedAtRef s
       else if loud then now else speechStartedAtRef s)
      (last_voice cfg now rms s) s.
Proof.
  intros Hgo loud.
  destruct (monitor_continues cfg flush now rms s Hgo) as (st & lv & E & _).
  assert (Ha : active s = true).
  { rewrite E, active_with_vad in Hgo. exact Hgo. }
  destruct (active_recorder s Ha) as (r & Hr & Hrec).
  clear E st lv. revert Hgo. unfold monitor, last_voice. subst loud.
  rewrite Hr, Hrec. cbn [negb].
  destruct (geb (now - recordingStartedAtRef s) (maxDurationMs cfg)).
  { rewrite recorder_stop_idle. discriminate. }
  destruct (speechDetectedRef s) eqn:Hd; cbn [negb orb].
  - destruct (geb (computeRmsLevel rms s) (energyThreshold cfg)).
    + repeat match goal with
             | |- context [if ?c then _ else _] => destruct c
             end;
        try (rewrite recorder_stop_idle; discriminate).
      intros _. open_hook s. cbn in Hd. subst. reflexivity.
    + repeat match goal with
             | |- context [if ?c then _ else _] => destruct c
             end;
        try (rewrite recorder_stop_idle; discriminate).
      intros _. open_hook s. cbn in Hd. subst. reflexivity.
  - destruct (geb (computeRmsLevel rms s) (energyThreshold cfg)).
    + intros _. open_hook s. cbn in Hd. subst. reflexivity.
    + intros _. open_hook s. cbn in Hd. subst. reflexivity.
Qed.

(** The invariant of the three timestamps, up to the time [prev] of the
    last tick. *)
Lemma timestamps_step (cfg : CaptureConfig) (flush : Blob) (s : Hook)
    (e : Event) (prev : Q) :
  active (handle_event cfg flush s e) = true ->
  monotone_from prev [e] ->
  recordingStartedAtRef s <= prev ->
  (speechDetectedRef s = true ->
   recordingStartedAtRef s <= speechStartedAtRef s
   /\ speechStartedAtRef s <= lastVoiceAtRef s
   /\ lastVoiceAtRef s <= prev) ->
  let s' := handle_event cfg flush s e in
  recordingStartedAtRef s' = recordingStartedAtRef s
  /\ recordingStartedAtRef s' <= last_tick prev [e]
  /\ (speechDetectedRef s' = true ->
      recordingStartedAtRef s' <= speechStartedAtRef s'
      /\ speechStartedAtRef s' <= lastVoiceAtRef s'
      /\ lastVoiceAtRef s' <= last_tick prev [e]).
Proof.
  intros Hgo Hmono Hstart Hinv s'. subst s'.
  destruct e as [now rms|data].
  - cbn [monotone_from] in Hmono. destruct Hmono as [Hnow _].
    cbn [last_tick]. cbn [handle_event] in *.
    destruct (monitorTimerRef s).
    + rewrite (monitor_going cfg flush now rms s Hgo).
      unfold last_voice.
      cbn [with_vad set_lastVoiceAtRef set_speechStartedAtRef
           set_speechDetectedRef recordingStartedAtRef speechDetectedRef
           speechStartedAtRef lastVoiceAtRef].
      split; [reflexivity|split; [lra|]].
      destruct (speechDetectedRef s) eqn:Hd.
      * intros _. destruct (Hinv eq_refl) as (H1 & H2 & H3).
        destruct (geb (computeRmsLevel rms s) (energyThreshold cfg));
          repeat split; lra.
      * destruct (geb (computeRmsLevel rms s) (energyThreshold cfg));
          cbn [orb]; [intros _; repeat split; lra|discriminate].
    + split; [reflexivity|split; [lra|]].
      intro Hd. destruct (Hinv Hd) as (H1 & H2 & H3). repeat split; lra.
  - pose proof (proj1 (view_data cfg flush s data)) as V.
    set (s' := handle_event cfg flush s (DataAvailable data)) in *.
    unfold vad_view in V. injection V as _ _ _ Hd Hst Hrt Hlv.
    cbn [last_tick].
    rewrite Hd, Hst, Hrt, Hlv. repeat split; try assumption; now apply Hinv.
Qed.

Lemma timestamps_run (cfg : CaptureConfig) (flush : Blob)
    (events : list Event) :
  forall (s : Hook) (prev : Q),
    active (run cfg flush s events) = true ->
    monotone_from prev events ->
    recordingStartedAtRef s <= prev ->
    (speechDetectedRef s = true ->
     recordingStartedAtRef s <= speechStartedAtRef s
     /\ speechStartedAtRef s <= lastVoiceAtRef s
     /\ lastVoiceAtRef s <= prev) ->
    let s' := run cfg flush s events in
    recordingStartedAtRef s' = recordingStartedAtRef s
    /\ (speechDetectedRef s' = true ->
        recordingStartedAtRef s' <= speechStartedAtRef s'
        /\ speechStartedAtRef s' <= lastVoiceAtRef s'
        /\ lastVoiceAtRef s' <= last_tick prev events).
Proof.
  induction events as [|e rest IH]; intros s prev Hgo Hmono Hstart Hinv.
  - cbn. split; [reflexivity|exact Hinv].
  - rewrite run_cons in *.
    pose proof (run_active_start _ _ _ _ Hgo) as Hstep.
    assert (Hmono1 : monotone_from prev [e]
                     /\ monotone_from (last_tick prev [e]) rest).
    { destruct e; cbn in *; tauto. }
    destruct Hmono1 as [Hm1 Hm2].
    destruct (timestamps_step cfg flush s e prev Hstep Hm1 Hstart Hinv)
      as (Hsame & Hle & Hinv').
    destruct (IH _ (last_tick prev [e]) Hgo Hm2 Hle Hinv') as (Hsame' & Hfin).
    cbv zeta. split; [congruence|].
    replace (last_tick prev (e :: rest)) with (last_tick (last_tick prev [e]) rest)
      by (destruct e; reflexivity).
    exact Hfin.
Qed.

(** X10. With a clock that never goes back, the timestamps of a session
    stay in order: once speech is detected, the session start is at or
    before the speech start, the speech start at or before the last voiced
    sample, and that one at or before the last tick.  So the time since the
    speech start never exceeds the time since the session start, and the
    second ceiling of the interval callback, counted from the speech start,
    is reached only when the first one, counted from the session start,
    is. *)
Theorem speech_timestamps_ordered (cfg : CaptureConfig) (flush : Blob)
    (s : Hook) (events : list Event) :
  speechDetectedRef s = false ->
  monotone_from (recordingStartedAtRef s) events ->
  let s1 := run cfg flush s events in
  active s1 = true -> speechDetectedRef s1 = true ->
  recordingStartedAtRef s1 = recordingStartedAtRef s
  /\ recordingStartedAtRef s1 <= speechStartedAtRef s1
  /\ speechStartedAtRef s1 <= lastVoiceAtRef s1
  /\ lastVoiceAtRef s1 <= last_tick (recordingStartedAtRef s) events
  /\ (forall now : Q,
        maxDurationMs cfg <= now - speechStartedAtRef s1 ->
        maxDurationMs cfg <= now - recordingStartedAtRef s1).
Proof.
  intros Hd Hmono s1 Hgo Hd1.
  destruct (timestamps_run cfg flush events s (recordingStartedAtRef s) Hgo
              Hmono (Qle_refl _)) as (Hsame & Hinv).
  { rewrite Hd. discriminate. }
  fold s1 in Hsame, Hinv. destruct (Hinv Hd1) as (H1 & H2 & H3).
  repeat split; try assumption.
  intros now Hmax. lra.
Qed.



(** ** Teardown *)

Lemma teardown_cleanup (s : Hook) : teardown (cleanup s) = [].
Proof. rewrite cleanup_spec. reflexivity. Qed.

(** X13. [cleanup] is idempotent and silent: a second [cleanup] changes
    nothing and releases nothing, and a [cleanup] calls no callback,
    resolves no promise, acquires nothing, and leaves the [isRecording]
    flag and a pending stop resolver as they are; what it releases is what
    the refs hold. *)
Theorem cleanup_is_idempotent (s : Hook) :
  cleanup (cleanup s) = cleanup s
  /\ trace (cleanup s) = trace s ++ teardown s
  /\ ledger (trace (cleanup s)) = release s (ledger (trace s))
  /\ completions (trace (cleanup s)) = completions (trace s)
  /\ resolutions (trace (cleanup s)) = resolutions (trace s)
  /\ snapshots (trace (cleanup s)) = snapshots (trace s)
  /\ errors (trace (cleanup s)) = errors (trace s)
  /\ acquisitions (trace (cleanup s)) = acquisitions (trace s)
  /\ isRecording (cleanup s) = isRecording s
  /\ resolveStopRef (cleanup s) = resolveStopRef s.
Proof.
  split.
  - rewrite (cleanup_spec (cleanup s)), teardown_cleanup, app_nil_r.
    rewrite cleanup_spec. reflexivity.
  - rewrite cleanup_spec. cbn [trace isRecording resolveStopRef].
    destruct (teardown_releases_only s) as (Hc & Hr & Hn & Ha & He).
    rewrite ledger_teardown, completions_app, resolutions_app, snapshots_app,
      errors_app, acquisitions_app, Hc, Hr, Hn, Ha, He, !app_nil_r.
    repeat split.
Qed.

(** X14. Unmounting the component, in any state the hook reaches, leaves
    the hook idle, resolves no promise and reports no error; if a session
    was recording it is stopped and completes once, with the blob of a
    stop, and otherwise nothing at all is called or released. *)
Theorem unmount_ends_the_session (flush : Blob) (s : Hook) :
  reachable s ->
  let s' := unmount flush s in
  is_idle s'
  /\ resolutions (trace s') = resolutions (trace s)
  /\ errors (trace s') = errors (trace s)
  /\ (active s = false -> trace s' = trace s)
  /\ (forall r, recorderRef s = Some r -> is_recording r = true ->
      completions (trace s') = completions (trace s) ++ [finalize flush r s]
      /\ ledger (trace s') = release s (ledger (trace s))).
Proof.
  intros Hreach s'. subst s'.
  destruct (reachable_shape s Hreach) as [Hidle|Hses].
  - pose proof (is_idle_inactive s Hidle) as Ha.
    assert (E : unmount flush s = s).
    { unfold is_idle in Hidle. rewrite Hidle. reflexivity. }
    rewrite E.
    split; [exact Hidle|]. split; [reflexivity|]. split; [reflexivity|].
    split; [reflexivity|].
    intros r0 Hr0 Hrec0. rewrite (recorder_active s r0 Hr0 Hrec0) in Ha.
    discriminate.
  - pose proof Hses as (_ & _ & Ha & _ & _ & _ & _ & Hk).
    destruct (active_recorder s Ha) as (r & Hr & Hrec).
    unfold unmount. rewrite Hr, Hrec, recorder_stop_idle. cbn [trace idle].
    rewrite resolutions_app, errors_app, resolutions_stop_effects, Hk.
    assert (He : errors (stop_effects flush r s) = []).
    { unfold stop_effects. rewrite !errors_app.
      destruct (teardown_releases_only s) as (_ & _ & _ & _ & ->).
      destruct ((0 <? size flush)%nat && speechDetectedRef s),
        (resolveStopRef s); reflexivity. }
    rewrite He, !app_nil_r.
    split; [apply is_idle_idle|]. split; [reflexivity|].
    split; [reflexivity|]. split; [congruence|].
    intros r0 Hr0 Hrec0. assert (r0 = r) by congruence. subst r0.
    split; [now rewrite completions_app, completions_stop_effects|].
    apply ledger_stop.
Qed.

(** ** The effective configuration, again *)

Lemma Math_max_idempotent (a b : Q) : Math_max a (Math_max a b) = Math_max a b.
Proof.
  unfold Math_max. destruct (Qle_bool a b) eqn:E.
  - now rewrite E.
  - replace (Qle_bool a a) with true; [reflexivity|].
    symmetry. apply Qle_bool_iff. apply Qle_refl.
Qed.

Lemma Math_max_whole (a b : Z) :
  exists z, Math_max (inject_Z a) (inject_Z b) = inject_Z z.
Proof.
  unfold Math_max. destruct (Qle_bool (inject_Z a) (inject_Z b));
    eexists; reflexivity.
Qed.

Lemma clamped_duration_whole (floor : Z) (v : Q) :
  exists z, Math_max (inject_Z floor) (Math_round v) = inject_Z z.
Proof. unfold Math_round. apply Math_max_whole. Qed.

Lemma clamped_duration_stable (floor : Z) (v : Q) :
  Math_max (inject_Z floor)
    (Math_round (Math_max (inject_Z floor) (Math_round v)))
  = Math_max (inject_Z floor) (Math_round v).
Proof.
  destruct (clamped_duration_whole floor v) as (z & E).
  rewrite E at 1. rewrite Math_round_integer, <- E.
  apply Math_max_idempotent.
Qed.

Lemma Math_max_same (a : Q) : Math_max a a = a.
Proof.
  unfold Math_max. destruct (Qle_bool a a); reflexivity.
Qed.

(** Rounding and clamping a duration twice is rounding and clamping it
    once, whatever the number. *)
Lemma duration_stable (floor : Z) (x : JsNumber) :
  Num.Math_max (Finite (inject_Z floor))
    (Num.Math_round
       (Num.Math_max (Finite (inject_Z floor)) (Num.Math_round x)))
  = Num.Math_max (Finite (inject_Z floor)) (Num.Math_round x).
Proof.
  destruct x as [| | |v]; cbn.
  - reflexivity.
  - reflexivity.
  - now rewrite Math_round_integer, Math_max_same.
  - f_equal. apply clamped_duration_stable.
Qed.

Lemma threshold_stable (floor : Q) (x : JsNumber) :
  Num.Math_max (Finite floor) (Num.Math_max (Finite floor) x)
  = Num.Math_max (Finite floor) x.
Proof.
  destruct x as [| | |v]; cbn.
  - reflexivity.
  - reflexivity.
  - now rewrite Math_max_same.
  - f_equal. apply Math_max_idempotent.
Qed.

(** A duration comes out whole, unless [NaN] or plus infinity was given. *)
Lemma duration_whole (default floor : Z) (given : option JsNumber) :
  whole_or_passed given
    (Num.Math_max (Finite (inject_Z floor))
       (Num.Math_round (nullish given (Finite (inject_Z default))))).
Proof.
  destruct given as [[| | |v]|]; cbn.
  - reflexivity.
  - reflexivity.
  - now exists floor.
  - destruct (clamped_duration_whole floor v) as (z & E).
    exists z. now rewrite E.
  - destruct (clamped_duration_whole floor (inject_Z default)) as (z & E).
    exists z. now rewrite E.
Qed.

(** X15. Whatever the options, [NaN] and the infinities included, the
    effective configuration is a fixed point: asked for as options, it is
    the configuration obtained.  Each of its five durations is a whole
    number of milliseconds, unless the option given was [NaN] or plus
    infinity, which is then the duration. *)
Theorem effective_config_is_stable (options : option Num.Options) :
  Num.effective_config (Some (options_of (Num.effective_config options)))
  = Num.effective_config options
  /\ durations_whole_or_passed options (Num.effective_config options).
Proof.
  split.
  - unfold Num.effective_config at 1. unfold options_of.
    cbn [Num.field Num.opt_maxDurationMs Num.opt_minDurationMs
         Num.opt_endSilenceMs Num.opt_energyThreshold
         Num.opt_sampleIntervalMs Num.opt_timesliceMs nullish].
    unfold Num.effective_config.
    cbn [Num.maxDurationMs Num.minDurationMs Num.endSilenceMs
         Num.energyThreshold Num.sampleIntervalMs Num.timesliceMs].
    rewrite (duration_stable 1000), (duration_stable 0),
      (duration_stable 100), (duration_stable 30), (duration_stable 120),
      threshold_stable.
    reflexivity.
  - unfold durations_whole_or_passed, Num.effective_config.
    cbn [Num.maxDurationMs Num.minDurationMs Num.endSilenceMs
         Num.sampleIntervalMs Num.timesliceMs].
    change (Num.field options) with
      (fun f : Num.Options -> option JsNumber =>
         match options with
         | Some o => f o
         | None => None
         end).
    cbv beta.
    split; [exact (duration_whole 12000 1000 _)|].
    split; [exact (duration_whole 500 0 _)|].
    split; [exact (duration_whole 600 100 _)|].
    split; [exact (duration_whole 100 30 _)|].
    exact (duration_whole 250 120 _).
Qed.

(** ** The listeners of the resume effect *)

Lemma same_registration_instance (a b : Registration) :
  same_registration a b = true -> instance_of (snd a) = instance_of (snd b).
Proof.
  destruct a as [[ta na] la], b as [[tb nb] lb]. cbn.
  destruct ta, tb, na, nb, la, lb; cbn; try discriminate;
    intro H; now apply Nat.eqb_eq in H.
Qed.

Lemma built_before_absent (first : nat) (table : list Registration)
    (r : Registration) :
  built_before first table -> (first <= instance_of (snd r))%nat ->
  existsb (same_registration r) table = false
  /\ removeEventListener r table = table.
Proof.
  unfold built_before, removeEventListener. intros Hold Hnew.
  induction Hold as [|x table Hx Hold IH]; [split; reflexivity|].
  destruct IH as [IH1 IH2]. cbn [existsb filter].
  destruct (same_registration r x) eqn:E.
  - apply same_registration_instance in E. lia.
  - cbn. rewrite IH1, IH2. split; reflexivity.
Qed.

Lemma remove_app (r : Registration) (t u : list Registration) :
  removeEventListener r (t ++ u)
  = removeEventListener r t ++ removeEventListener r u.
Proof. apply filter_app. Qed.

(** One mount and unmount: the wrapper stays. *)
Lemma resume_effect_cycle (i : nat) (table : list Registration) :
  built_before i table ->
  resume_effect_cleanup i (resume_effect i table)
  = table ++ [(Document, visibilitychange, VisibilityWrapper i)].
Proof.
  intro Hold.
  unfold resume_effect, resume_effect_cleanup, addEventListener.
  destruct (built_before_absent i table
              (Document, visibilitychange, VisibilityWrapper i) Hold (le_n i))
    as [E1 _].
  rewrite E1, existsb_app.
  destruct (built_before_absent i table (Window, focus, HandleResume i)
              Hold (le_n i)) as [E2 R2].
  destruct (built_before_absent i table
              (Document, visibilitychange, HandleResume i) Hold (le_n i))
    as [_ R3].
  rewrite E2. cbn [existsb same_registration andb orb].
  rewrite !remove_app, R3, R2.
  unfold removeEventListener. cbn [filter same_registration andb negb].
  rewrite Nat.eqb_refl. cbn. now rewrite app_nil_r.
Qed.

Lemma built_before_grows (i : nat) (table : list Registration) :
  built_before i table ->
  built_before (S i)
    (table ++ [(Document, visibilitychange, VisibilityWrapper i)]).
Proof.
  unfold built_before. intro H. apply Forall_app. split.
  - revert H. apply Forall_impl. intros; lia.
  - constructor; [cbn; lia|constructor].
Qed.

(** X16. The cleanup of the resume effect asks to remove [handleResume]
    from [visibilitychange], where the effect registered an anonymous
    wrapper: the wrapper is never removed.  After the component has been
    mounted and unmounted [n] times, the table of listeners holds what it
    held before and one [visibilitychange] wrapper per mount, and no
    [focus] listener of these mounts. *)
Theorem visibility_listener_survives_unmount (n first : nat)
    (table : list Registration) :
  built_before first table ->
  mount_cycles first n table
  = table
    ++ map (fun i => (Document, visibilitychange, VisibilityWrapper i))
         (seq first n).
Proof.
  revert first table.
  induction n as [|n IH]; intros first table Hold.
  - cbn. now rewrite app_nil_r.
  - cbn [mount_cycles seq map].
    rewrite (resume_effect_cycle first table Hold).
    rewrite (IH (S first) _ (built_before_grows first table Hold)).
    now rewrite <- app_assoc.
Qed.

(** ** A flat signal *)




(** ** The type of the blobs *)

Lemma blob_mime_nonempty (r : MediaRecorder) : blob_mime r <> "".
Proof.
  unfold blob_mime, or_else. destruct (mimeType r) eqn:E; [discriminate|].
  discriminate.
Qed.

Lemma lowercase_nonempty (m : string) : m <> "" -> lowercase m <> "".
Proof. destruct m; [congruence|discriminate]. Qed.

(** The type of the session's blobs, by what the recorder reports. *)
Lemma blob_type_of_mime (r : MediaRecorder) :
  (mimeType r = "" -> blob_type_of (blob_mime r) = "audio/webm")
  /\ (mimeType r <> "" -> all_printable (mimeType r) = true ->
      blob_type_of (blob_mime r) = lowercase (mimeType r)
      /\ blob_type_of (blob_mime r) <> "")
  /\ (all_printable (mimeType r) = false ->
      blob_type_of (blob_mime r) = "").
Proof.
  unfold blob_mime, or_else. destruct (mimeType r) as [|c m] eqn:E.
  - split; [reflexivity|]. split; [congruence|discriminate].
  - split; [discriminate|]. unfold blob_type_of. split.
    + intros _ ->. split; [reflexivity|]. now apply lowercase_nonempty.
    + now intros ->.
Qed.

(** The three cases of the constructor. *)
Example blob_type_of_cases :
  blob_type (new_Blob [] "Audio/WebM;codecs=Opus") = "audio/webm;codecs=opus"
  /\ blob_type (new_Blob [] "audio/ogg") = "audio/ogg"
  /\ blob_type (new_Blob [] (String (Ascii.ascii_of_nat 233) "m")) = "".
Proof. repeat split. Qed.

Lemma completed_blobs_app (t u : list Effect) :
  completed_blobs (t ++ u) = completed_blobs t ++ completed_blobs u.
Proof. unfold completed_blobs. now rewrite completions_app, flat_map_app. Qed.

Lemma stop_blobs_typed (flush : Blob) (r : MediaRecorder) (s : Hook) :
  Forall (fun b => blob_type b = blob_type_of (blob_mime r))
    (snapshots (stop_effects flush r s))
  /\ Forall (fun b => blob_type b = blob_type_of (blob_mime r))
       (completed_blobs (stop_effects flush r s)).
Proof.
  unfold completed_blobs.
  rewrite snapshots_stop_effects, completions_stop_effects. unfold finalize.
  split.
  - destruct ((0 <? size flush)%nat && speechDetectedRef s);
      repeat constructor.
  - destruct (speechDetectedRef s && (0 <? List.length (collected flush s))%nat);
      repeat constructor.
Qed.

(** Every blob a run of a session hands out has the type of the session's
    recorder. *)
Lemma run_blobs_typed (cfg : CaptureConfig) (flush : Blob)
    (events : list Event) (r : MediaRecorder) :
  forall s : Hook,
    recorderRef s = Some r -> is_recording r = true ->
    exists snaps blobs,
      snapshots (trace (run cfg flush s events)) = snapshots (trace s) ++ snaps
      /\ completed_blobs (trace (run cfg flush s events))
         = completed_blobs (trace s) ++ blobs
      /\ Forall (fun b => blob_type b = blob_type_of (blob_mime r)) snaps
      /\ Forall (fun b => blob_type b = blob_type_of (blob_mime r)) blobs.
Proof.
  induction events as [|e rest IH]; intros s Hr Hrec.
  - exists [], []. cbn. rewrite !app_nil_r. repeat split; constructor.
  - rewrite run_cons.
    destruct (active (handle_event cfg flush s e)) eqn:Hgo.
    + pose proof (handle_event_frame cfg flush s e Hgo) as F.
      assert (Hr' : recorderRef (handle_event cfg flush s e) = Some r).
      { now rewrite (frame_recorder _ _ F). }
      destruct (IH _ Hr' Hrec) as (snaps & blobs & Hs & Hb & Ts & Tb).
      rewrite Hs, Hb.
      destruct e as [now rms|data].
      * destruct (handle_tick_continues cfg flush now rms s Hgo)
          as (d & st & lv & -> & _).
        exists snaps, blobs. repeat split; assumption.
      * rewrite (handle_data cfg flush data s r Hr Hrec).
        destruct (nonempty data); [destruct (speechDetectedRef s)|].
        -- exists (new_Blob (chunksRef s ++ [data]) (blob_mime r) :: snaps),
             blobs.
           cbn [trace emit set_chunksRef].
           rewrite snapshots_app, completed_blobs_app. cbn.
           rewrite app_nil_r, <- app_assoc. cbn [app].
           repeat split; try assumption. constructor; [reflexivity|assumption].
        -- exists snaps, blobs. repeat split; assumption.
        -- exists snaps, blobs. repeat split; assumption.
    + rewrite run_inactive by assumption.
      rewrite (handle_event_ends cfg flush s e r Hr Hrec Hgo).
      cbn [trace idle]. rewrite snapshots_app, completed_blobs_app.
      destruct (stop_blobs_typed flush r s) as [Ts Tb].
      eexists. eexists. repeat split; eassumption.
Qed.

(** X18. Every blob a session hands out, the snapshots for
    [onRecordingChunk] and the final blob for [onRecordingComplete] and the
    stop resolver, has the type the [Blob] constructor makes of the MIME
    type of the session's recorder, or of [audio/webm] when the recorder
    reports none: a type of characters from U+0020 to U+007E in ASCII
    lowercase, and the empty type otherwise. *)
Theorem blobs_carry_the_recorder_type (cfg : CaptureConfig) (flush : Blob)
    (events : list Event) (promise : handle) (s : Hook) (r : MediaRecorder) :
  recorderRef s = Some r -> is_recording r = true ->
  let final := stopRecording promise flush (run cfg flush s events) in
  exists snaps blobs,
    snapshots (trace final) = snapshots (trace s) ++ snaps
    /\ completed_blobs (trace final) = completed_blobs (trace s) ++ blobs
    /\ Forall (fun b => blob_type b = blob_type_of (blob_mime r)) snaps
    /\ Forall (fun b => blob_type b = blob_type_of (blob_mime r)) blobs
    /\ (mimeType r = "" -> blob_type_of (blob_mime r) = "audio/webm")
    /\ (mimeType r <> "" -> all_printable (mimeType r) = true ->
        blob_type_of (blob_mime r) = lowercase (mimeType r)
        /\ blob_type_of (blob_mime r) <> "")
    /\ (all_printable (mimeType r) = false ->
        blob_type_of (blob_mime r) = "").
Proof.
  intros Hr Hrec final.
  destruct (run_blobs_typed cfg flush events r s Hr Hrec)
    as (snaps & blobs & Hs & Hb & Ts & Tb).
  pose proof (blob_type_of_mime r) as Hm.
  subst final.
  destruct (active (run cfg flush s events)) eqn:Hgo.
  - pose proof (run_frame cfg flush events s Hgo) as F.
    assert (Hr1 : recorderRef (run cfg flush s events) = Some r).
    { now rewrite (frame_recorder _ _ F). }
    rewrite (stopRecording_active promise flush _ r Hr1 Hrec).
    cbn [trace idle]. rewrite snapshots_app, completed_blobs_app, Hs, Hb.
    destruct (stop_blobs_typed flush r
                (set_resolveStopRef (Some promise) (run cfg flush s events)))
      as [Ts' Tb'].
    eexists. eexists. rewrite <- !app_assoc.
    split; [reflexivity|]. split; [reflexivity|].
    split; [apply Forall_app; split; eassumption|].
    split; [apply Forall_app; split; eassumption|exact Hm].
  - unfold stopRecording. unfold active in Hgo.
    destruct (recorderRef (run cfg flush s events)) as [r1|] eqn:Hr1.
    + rewrite Hgo, cleanup_spec. cbn [trace emit setIsRecording].
      rewrite !snapshots_app, !completed_blobs_app.
      destruct (teardown_releases_only (run cfg flush s events))
        as (Hc & _ & Hn & _).
      unfold completed_blobs at 2 3. rewrite Hc, Hn. cbn.
      rewrite !app_nil_r, Hs, Hb.
      exists snaps, blobs.
      split; [reflexivity|]. split; [reflexivity|].
      split; [assumption|]. split; [assumption|exact Hm].
    + rewrite cleanup_spec. cbn [trace emit setIsRecording].
      rewrite !snapshots_app, !completed_blobs_app.
      destruct (teardown_releases_only (run cfg flush s events))
        as (Hc & _ & Hn & _).
      unfold completed_blobs at 2 3. rewrite Hc, Hn. cbn.
      rewrite !app_nil_r, Hs, Hb.
      exists snaps, blobs.
      split; [reflexivity|]. split; [reflexivity|].
      split; [assumption|]. split; [assumption|exact Hm].
Qed.

(** ** These properties at concrete sessions *)

Lemma fresh_in_session : in_session fresh.
Proof. unfold in_session. cbn. repeat split; discriminate. Qed.

(** The hook of a session in progress. *)
(** A session that heard speech and buffered a chunk, between the
    [recorder.stop()] of [stopRecording] and its events. *)
Lemma refs_all_or_nothing_witness :
  let r := mkRecorder recording "audio/webm;codecs=opus" in
  let s :=
    stopRecording_call 7%nat
      (ondataavailable r chunk (monitor_call defaults 100 0.5 fresh)) in
  (stopping s /\ chunksRef s = [chunk] /\ speechDetectedRef s = true
   /\ resolveStopRef s = Some 7%nat)
  /\ all_or_nothing s
  /\ (stopping s ->
      isRecording s = true /\ active s = false
      /\ (forall cfg now rms, monitor_call cfg now rms s = s)
      /\ (forall promise,
            stopRecording_call promise s
            = emit (Resolve promise None) (setIsRecording false (cleanup s)))
      /\ unmount_call s = cleanup s)
  /\ (forall promise flush,
        stopRecording promise flush s
        = settle flush (stopRecording_call promise s))
  /\ (forall flush, unmount flush s = settle flush (unmount_call s))
  /\ (forall cfg flush now rms,
        monitor cfg flush now rms s
        = if active s then settle flush (monitor_call cfg now rms s)
          else monitor_call cfg now rms s).
Proof.
  intros r s. split.
  - split; [|repeat split].
    exists (mkRecorder inactive "audio/webm;codecs=opus").
    split; [reflexivity|discriminate].
  - apply (refs_all_or_nothing s).
    apply task_stopRecording, task_data, task_tick, task_start, task_mounted.
Defined.

(** A start that fails at the construction of the encoder answers [false]
    and no recorder records. *)
Lemma start_answer_is_recording_witness :
  fst (startRecording None browser_without_encoder (mounted true))
  = active (snd (startRecording None browser_without_encoder (mounted true)))
  /\ fst (startRecording None browser_without_encoder (mounted true))
     = isRecording (snd (startRecording None browser_without_encoder (mounted true))).
Proof.
  apply (start_answer_is_recording None browser_without_encoder (mounted true)).
  exact (reach_mounted true).
Defined.

(** A browser without [MediaRecorder]: a start and a stop later, nothing
    was acquired. *)
Lemma unsupported_never_acquires_witness :
  let s := stopRecording 7%nat chunk
             (snd (startRecording None browser (mount old_browser))) in
  is_idle s
  /\ acquisitions (trace s) = []
  /\ completions (trace s) = []
  /\ snapshots (trace s) = [].
Proof.
  apply (unsupported_never_acquires
           (stopRecording 7%nat chunk
              (snd (startRecording None browser (mount old_browser))))).
  - apply reach_stop. apply reach_start. exact (reach_mounted false).
  - reflexivity.
Defined.

(** A session with speech and a chunk, then stopped by its caller. *)
Lemma session_releases_everything_witness :
  let s := snd (startRecording None browser (idle true [])) in
  let final :=
    stopRecording 7%nat chunk
      (run defaults chunk s [Tick 100 0.5; DataAvailable chunk]) in
  is_idle final
  /\ ledger (trace final)
     = (remove_handle 1%nat (live_streams []),
        remove_handle 2%nat (open_contexts []),
        remove_handle (setInterval browser) (live_timers [])).
Proof.
  apply (session_releases_everything None browser 1%nat 2%nat [] defaults chunk
           [Tick 100 0.5; DataAvailable chunk] 7%nat).
  - reflexivity.
  - reflexivity.
  - reflexivity.
Defined.


(** A session that stops by itself at 800 ms and is then stopped again by
    its caller. *)
Lemma session_completes_once_witness :
  let s1 := run defaults chunk fresh (short_speech ++ [Tick 800 0]) in
  let final := stopRecording 7%nat chunk s1 in
  exists b,
    completions (trace final) = completions (trace fresh) ++ [b]
    /\ resolutions (trace final)
       = resolutions (trace fresh)
         ++ [(7%nat, if active s1 then b else None)].
Proof.
  apply (session_completes_once defaults chunk (short_speech ++ [Tick 800 0])
           7%nat fresh).
  exact fresh_in_session.
Defined.


(** Speech at 100 ms and 200 ms, last tick at 700 ms. *)
Lemma speech_timestamps_ordered_witness :
  let s1 := run defaults chunk fresh short_speech in
  recordingStartedAtRef s1 = recordingStartedAtRef fresh
  /\ recordingStartedAtRef s1 <= speechStartedAtRef s1
  /\ speechStartedAtRef s1 <= lastVoiceAtRef s1
  /\ lastVoiceAtRef s1 <= last_tick (recordingStartedAtRef fresh) short_speech
  /\ (forall now : Q,
        maxDurationMs defaults <= now - speechStartedAtRef s1 ->
        maxDurationMs defaults <= now - recordingStartedAtRef s1).
Proof.
  apply (speech_timestamps_ordered defaults chunk fresh short_speech).
  - reflexivity.
  - cbn. repeat split; discriminate.
  - reflexivity.
  - reflexivity.
Defined.



(** Unmounting in the middle of a session with speech. *)
Lemma unmount_ends_the_session_witness :
  let s := run defaults chunk fresh short_speech in
  let s' := unmount chunk s in
  is_idle s'
  /\ resolutions (trace s') = resolutions (trace s)
  /\ errors (trace s') = errors (trace s)
  /\ (active s = false -> trace s' = trace s)
  /\ (forall r, recorderRef s = Some r -> is_recording r = true ->
      completions (trace s') = completions (trace s) ++ [finalize chunk r s]
      /\ ledger (trace s') = release s (ledger (trace s))).
Proof.
  apply (unmount_ends_the_session chunk (run defaults chunk fresh short_speech)).
  unfold short_speech.
  repeat (apply (reach_event defaults chunk) || exact fresh_is_reachable).
Defined.

(** Three mounts of the component on an empty table. *)
Lemma visibility_listener_survives_unmount_witness :
  mount_cycles 0 3 []
  = [] ++ map (fun i => (Document, visibilitychange, VisibilityWrapper i))
            (seq 0 3).
Proof.
  apply (visibility_listener_survives_unmount 3 0 []).
  constructor.
Defined.


(** A session with a snapshot, stopped by its caller. *)
Lemma blobs_carry_the_recorder_type_witness :
  let r := mkRecorder recording "audio/webm;codecs=opus" in
  let final :=
    stopRecording 7%nat chunk
      (run defaults chunk fresh [Tick 100 0.5; DataAvailable chunk]) in
  exists snaps blobs,
    snapshots (trace final) = snapshots (trace fresh) ++ snaps
    /\ completed_blobs (trace final) = completed_blobs (trace fresh) ++ blobs
    /\ Forall (fun b => blob_type b = blob_type_of (blob_mime r)) snaps
    /\ Forall (fun b => blob_type b = blob_type_of (blob_mime r)) blobs
    /\ (mimeType r = "" -> blob_type_of (blob_mime r) = "audio/webm")
    /\ (mimeType r <> "" -> all_printable (mimeType r) = true ->
        blob_type_of (blob_mime r) = lowercase (mimeType r)
        /\ blob_type_of (blob_mime r) <> "")
    /\ (all_printable (mimeType r) = false ->
        blob_type_of (blob_mime r) = "").
Proof.
  apply (blobs_carry_the_recorder_type defaults chunk
           [Tick 100 0.5; DataAvailable chunk] 7%nat fresh
           (mkRecorder recording "audio/webm;codecs=opus")).
  - reflexivity.
  - reflexivity.
Defined.
